(** * LibFS: the inode file system of [LibFS.c] over a sector device

    A shallow embedding of [src/LibFS.c].  Sectors are flat byte
    buffers, exactly as the C code sees them: inodes and directory
    entries are read and written through byte offsets into a sector
    buffer.  The global tables of the C file ([open_files], [osErrno])
    and the simulated disk are the fields of one state record that is
    threaded through every function by a small state-and-fault monad.

    Conventions of the embedding.
    - A C [int] is a [Z]; [/] and [%] on ints are [Z.quot] and [Z.rem]
      (truncation toward zero).  The operands of the [size_t] macros
      ([INODES_PER_SECTOR], [DIRENTS_PER_SECTOR]) are inode numbers,
      entry counts and loop counters, which are non-negative on every
      volume the library itself produces; there unsigned and signed
      arithmetic agree.  Additions on caller-supplied ints are checked
      against the 32-bit range, and overflow is a fault.
    - ints are stored little-endian on four bytes, structures are
      packed without padding ([sizeof(dirent_t)] is 20).
    - A byte is a [Z] in [0, 256).
    - Behaviour the C standard leaves undefined (an index outside an
      array, a read of an uninitialised local, a [memcpy] that leaves
      its buffer) is the outcome [Fault UndefinedBehaviour]; a failed
      [assert] is [Fault AssertFailed]. *)

From Stdlib Require Import String Ascii ZArith List Bool Lia.
Import ListNotations.
Local Open Scope list_scope.
Local Open Scope Z_scope.

(** ** Compile-time constants *)

(** The constants of [LibDisk.h] and [LibFS.h], which [LibFS.c] includes
    and which are taken as parameters of the whole development. *)
Class Params : Type := {
  SECTOR_SIZE : Z;
  TOTAL_SECTORS : Z;
  MAX_FILES : Z;
  MAX_SECTORS_PER_FILE : Z
}.

(** The error codes that [LibFS.c] stores in [osErrno]. *)
Inductive FS_Error : Type :=
| E_GENERAL
| E_CREATE
| E_NO_SUCH_FILE
| E_TOO_MANY_OPEN_FILES
| E_BAD_FD
| E_NO_SPACE
| E_FILE_TOO_BIG
| E_SEEK_OUT_OF_BOUNDS
| E_FILE_IN_USE
| E_NO_SUCH_DIR
| E_DIR_NOT_EMPTY
| E_BUFFER_TOO_SMALL.

(** ** Byte buffers *)

Definition byte := Z.
Definition buffer := list byte.

Definition zget {A : Type} (l : list A) (i : Z) : option A :=
  if i <? 0 then None else nth_error l (Z.to_nat i).

Fixpoint upd_nat {A : Type} (l : list A) (n : nat) (x : A) : list A :=
  match l, n with
  | [], _ => []
  | _ :: t, O => x :: t
  | h :: t, S n' => h :: upd_nat t n' x
  end.

Definition zset {A : Type} (l : list A) (i : Z) (x : A) : list A :=
  if i <? 0 then l else upd_nat l (Z.to_nat i) x.

Definition byte_at (buf : buffer) (i : Z) : byte :=
  match zget buf i with Some b => b | None => 0 end.

(** [blit dst off src]: the bytes of [src] stored into [dst] from offset
    [off] on; [dst] keeps its length when the range fits. *)
Definition blit (dst : buffer) (off : Z) (src : buffer) : buffer :=
  firstn (Z.to_nat off) dst ++ src
    ++ skipn (Z.to_nat off + length src) dst.

Definition slice (buf : buffer) (off len : Z) : buffer :=
  firstn (Z.to_nat len) (skipn (Z.to_nat off) buf).

Definition zeros (n : Z) : buffer := repeat 0 (Z.to_nat n).

(** [memset(buf + off, c, n)] *)
Definition memset (buf : buffer) (off c n : Z) : buffer :=
  blit buf off (repeat (c mod 256) (Z.to_nat n)).

Definition to_int (z : Z) : Z :=
  let m := z mod 4294967296 in
  if m <? 2147483648 then m else m - 4294967296.

Definition in_int (z : Z) : bool :=
  (-2147483648 <=? z) && (z <=? 2147483647).

(** [*(int* )(buf + off)] *)
Definition get_int (buf : buffer) (off : Z) : Z :=
  to_int (byte_at buf off + 256 * byte_at buf (off + 1)
          + 65536 * byte_at buf (off + 2)
          + 16777216 * byte_at buf (off + 3)).

(** [*(int* )(buf + off) = v] *)
Definition put_int (buf : buffer) (off v : Z) : buffer :=
  let u := v mod 4294967296 in
  blit buf off [u mod 256; (u / 256) mod 256; (u / 65536) mod 256;
                (u / 16777216) mod 256].

Definition bytes_of_string (s : string) : buffer :=
  map (fun c => Z.of_N (N_of_ascii c)) (list_ascii_of_string s).

Fixpoint buffer_eqb (a b : buffer) : bool :=
  match a, b with
  | [], [] => true
  | x :: a', y :: b' => (x =? y) && buffer_eqb a' b'
  | _, _ => false
  end.

(** [strncpy(dst, src, n)] seen as the [n] bytes it leaves in [dst]:
    the characters of [src], cut at [n], then NUL padding. *)
Definition strncpy_bytes (src : buffer) (n : Z) : buffer :=
  let k := Z.to_nat n in
  firstn k src ++ repeat 0 (k - length (firstn k src)).

(** ** Machine state and the monad *)

(** [open_file_t] *)
Record open_file_t : Type := mk_open_file {
  inode : Z;   (* inode of the file; 0 means the entry is not used *)
  size : Z;    (* file size cached here *)
  pos : Z      (* read/write position *)
}.

Record fs_state : Type := mk_state {
  disk : list buffer;            (* the sectors of the device *)
  open_files : list open_file_t; (* [open_files[MAX_OPEN_FILES]] *)
  osErrno : FS_Error
}.

Inductive fault : Type :=
| UndefinedBehaviour
| AssertFailed
| Diverges.

Inductive outcome (A : Type) : Type :=
| Ret (a : A) (s : fs_state)
| Fault (f : fault).
Arguments Ret {A} a s.
Arguments Fault {A} f.

Definition M (A : Type) : Type := fs_state -> outcome A.

Definition ret {A : Type} (a : A) : M A := fun s => Ret a s.

Definition bind {A B : Type} (m : M A) (k : A -> M B) : M B :=
  fun s => match m s with
           | Ret a s' => k a s'
           | Fault f => Fault f
           end.

Definition undef {A : Type} : M A := fun _ => Fault UndefinedBehaviour.

Declare Scope fs_scope.
Delimit Scope fs_scope with fs.
Notation "x <- m ;; k" := (bind m (fun x => k))
  (at level 61, m at next level, right associativity) : fs_scope.
Notation "' p <- m ;; k" := (bind m (fun p => k))
  (at level 61, p pattern, m at next level, right associativity) : fs_scope.
Notation "m ;; k" := (bind m (fun _ => k))
  (at level 61, right associativity) : fs_scope.
Local Open Scope fs_scope.

(** [osErrno = e;] *)
Definition set_errno (e : FS_Error) : M unit :=
  fun s => Ret tt (mk_state (disk s) (open_files s) e).

Definition put_open_files (t : list open_file_t) : M unit :=
  fun s => Ret tt (mk_state (disk s) t (osErrno s)).

(** [assert(c);] *)
Definition c_assert (c : bool) : M unit :=
  fun s => if c then Ret tt s else Fault AssertFailed.

(** An int expression on caller-supplied operands. *)
Definition int_arith (z : Z) : M Z :=
  if in_int z then ret z else undef.

(** Loops.  The body of a loop answers how the C body left: it fell
    through to the next iteration, executed [break], or executed
    [return r]. *)
Inductive ctl (S R : Type) : Type :=
| Continue (s : S)
| Break (s : S)
| Return (r : R).
Arguments Continue {S R} s.
Arguments Break {S R} s.
Arguments Return {S R} r.

(** [for (i = lo; i < lo + n; i++) body]: the locals the body changes
    are the loop state [s]; the result is the state at loop exit, or the
    value of a [return] executed inside. *)
Fixpoint for_range {S R : Type} (n : nat) (i : Z)
    (body : Z -> S -> M (ctl S R)) (s : S) : M (S + R) :=
  match n with
  | O => ret (inl s)
  | Datatypes.S n' =>
      c <- body i s ;;
      match c with
      | Continue s' => for_range n' (i + 1) body s'
      | Break s' => ret (inl s')
      | Return r => ret (inr r)
      end
  end.

(** The iterations of [for (i = lo; i < hi; i++)]. *)
Definition trip (lo hi : Z) : nat := Z.to_nat (hi - lo).

Section LibFS.
Context {P : Params}.

(** ** Layout of the disk: the macros of [LibFS.c] *)

Definition SUPERBLOCK_START_SECTOR : Z := 0.
Definition OS_MAGIC : Z := 3735928559. (* 0xdeadbeef *)
Definition INODE_BITMAP_START_SECTOR : Z := 1.
Definition INODE_BITMAP_SIZE : Z := Z.quot (MAX_FILES + 7) 8.
Definition INODE_BITMAP_SECTORS : Z :=
  Z.quot (INODE_BITMAP_SIZE + SECTOR_SIZE - 1) SECTOR_SIZE.
Definition SECTOR_BITMAP_START_SECTOR : Z :=
  INODE_BITMAP_START_SECTOR + INODE_BITMAP_SECTORS.
Definition SECTOR_BITMAP_SIZE : Z := Z.quot (TOTAL_SECTORS + 7) 8.
Definition SECTOR_BITMAP_SECTORS : Z :=
  Z.quot (SECTOR_BITMAP_SIZE + SECTOR_SIZE - 1) SECTOR_SIZE.
Definition INODE_TABLE_START_SECTOR : Z :=
  SECTOR_BITMAP_START_SECTOR + SECTOR_BITMAP_SECTORS.

(** [sizeof(inode_t)]: [size], [type] and [data[MAX_SECTORS_PER_FILE]]. *)
Definition sizeof_inode_t : Z := 4 + 4 + 4 * MAX_SECTORS_PER_FILE.
Definition INODES_PER_SECTOR : Z := Z.quot SECTOR_SIZE sizeof_inode_t.
Definition INODE_TABLE_SECTORS : Z :=
  Z.quot (MAX_FILES + INODES_PER_SECTOR - 1) INODES_PER_SECTOR.
Definition DATABLOCK_START_SECTOR : Z :=
  INODE_TABLE_START_SECTOR + INODE_TABLE_SECTORS.

Definition MAX_PATH : Z := 256.
Definition MAX_NAME : Z := 16.
Definition MAX_OPEN_FILES : Z := 256.

(** [sizeof(dirent_t)]: [fname[MAX_NAME]] and [inode]. *)
Definition sizeof_dirent_t : Z := MAX_NAME + 4.
Definition DIRENTS_PER_SECTOR : Z := Z.quot SECTOR_SIZE sizeof_dirent_t.

(** Modelled from the spec: [MAX_FILE_SIZE] is a macro of the absent
    [LibFS.h]; the spec gives the maximum file size as the sector-array
    capacity times the sector size. *)
Definition MAX_FILE_SIZE : Z := MAX_SECTORS_PER_FILE * SECTOR_SIZE.

(** ** The fields of an inode and of a directory entry in a buffer *)

(** [((inode_t* )(buf + offset*sizeof(inode_t)))->size] and the like:
    [offset] is the index of the inode inside its inode-table sector. *)
Definition inode_size (buf : buffer) (offset : Z) : Z :=
  get_int buf (offset * sizeof_inode_t).
Definition inode_type (buf : buffer) (offset : Z) : Z :=
  get_int buf (offset * sizeof_inode_t + 4).
Definition data_in_bounds (i : Z) : bool :=
  (0 <=? i) && (i <? MAX_SECTORS_PER_FILE).
Definition inode_data (buf : buffer) (offset i : Z) : M Z :=
  if data_in_bounds i
  then ret (get_int buf (offset * sizeof_inode_t + 8 + 4 * i))
  else undef.

Definition set_inode_size (buf : buffer) (offset v : Z) : buffer :=
  put_int buf (offset * sizeof_inode_t) v.
Definition set_inode_type (buf : buffer) (offset v : Z) : buffer :=
  put_int buf (offset * sizeof_inode_t + 4) v.
Definition set_inode_data (buf : buffer) (offset i v : Z) : M buffer :=
  if data_in_bounds i
  then ret (put_int buf (offset * sizeof_inode_t + 8 + 4 * i) v)
  else undef.

(** [((dirent_t* )buf)[i].inode] *)
Definition dirent_inode (buf : buffer) (i : Z) : Z :=
  get_int buf (i * sizeof_dirent_t + MAX_NAME).
(** The whole record, as [memcpy] and [Dir_Read] see it. *)
Definition dirent_bytes (buf : buffer) (i : Z) : buffer :=
  slice buf (i * sizeof_dirent_t) sizeof_dirent_t.

(** A local [char buffer[SECTOR_SIZE]]: its first content is
    indeterminate in C; every function below fills it by [Disk_Read] or
    [memset] before it uses a byte of it. *)
Definition stack_buffer : buffer := zeros SECTOR_SIZE.

(** ** The block device *)

(** Modelled from the spec: [Disk_Read] belongs to the absent LibDisk;
    the spec gives it as [read(sector_index) -> sector_bytes | error],
    exactly one sector, over a fixed number of sectors.  The result is
    the return code together with the caller's buffer after the call. *)
Definition Disk_Read (sector : Z) (buf : buffer) : M (Z * buffer) :=
  fun s => match zget (disk s) sector with
           | Some b => Ret (0, b) s
           | None => Ret (-1, buf) s
           end.

(** Modelled from the spec: [Disk_Write] belongs to the absent LibDisk;
    the spec gives it as [write(sector_index, sector_bytes) -> ok | error]. *)
Definition Disk_Write (sector : Z) (buf : buffer) : M Z :=
  fun s => match zget (disk s) sector with
           | Some _ => Ret 0 (mk_state (zset (disk s) sector buf)
                                       (open_files s) (osErrno s))
           | None => Ret (-1) s
           end.

(** Modelled from the spec: [Disk_Init] belongs to the absent LibDisk; it
    gives a device of [TOTAL_SECTORS] zeroed sectors. *)
Definition Disk_Init : list buffer :=
  repeat (zeros SECTOR_SIZE) (Z.to_nat TOTAL_SECTORS).

(** ** Helper functions *)

Definition check_magic : M Z :=
  '(rc, buffer) <- Disk_Read SUPERBLOCK_START_SECTOR stack_buffer ;;
  if rc <? 0 then ret 0
  else if get_int buffer 0 mod 4294967296 =? OS_MAGIC then ret 1
  else ret 0.

Definition set_NthBit (c : byte) (n : Z) : byte :=
  let mask := [128; 64; 32; 16; 8; 4; 2; 1] in
  Z.lor c (nth (Z.to_nat n) mask 0).

Definition isNthSet (c : byte) (n : Z) : bool :=
  let mask := [128; 64; 32; 16; 8; 4; 2; 1] in
  negb (Z.land c (nth (Z.to_nat n) mask 0) =? 0).

(** ** Bitmap functions *)

Definition bitmap_init (start num nbits : Z) : M unit :=
  let nBytes := Z.quot nbits 8 in
  let remain_bits := Z.rem nbits 8 in
  let last_block := 0 in
  for_range (trip start (start + num)) start
    (fun i '(nBytes, last_block, buffer) =>
       let last_block := if nBytes <? SECTOR_SIZE then 1 else last_block in
       '(rc, buffer) <- Disk_Read i buffer ;;
       if rc <? 0 then set_errno E_GENERAL ;; ret (Return tt)
       else
         let buffer := memset buffer 0 0 SECTOR_SIZE in
         let '(nBytes, buffer) :=
           if nBytes >=? 0 then
             if last_block =? 0
             then (nBytes - SECTOR_SIZE, memset buffer 0 1 SECTOR_SIZE)
             else
               let buffer := memset buffer 0 255 nBytes in
               if (remain_bits >? 0) && (last_block =? 1) then
                 let mask := Z.shiftl 255 (8 - remain_bits) mod 256 in
                 (-1, zset buffer nBytes mask)
               else (nBytes, buffer)
           else (nBytes, buffer) in
         rc <- Disk_Write i buffer ;;
         if rc <? 0 then set_errno E_GENERAL ;; ret (Return tt)
         else ret (Continue (nBytes, last_block, buffer)))
    (nBytes, last_block, stack_buffer) ;;
  ret tt.

(** The test-and-set of one bit inside the scanning loops of
    [bitmap_first_unused]; [location] has been incremented already. *)
Definition claim_bit (i : Z) (buffer : buffer) (x bitInByte location : Z)
  : M (ctl Z Z) :=
  if negb (isNthSet (byte_at buffer x) bitInByte) then
    let buffer := zset buffer x (set_NthBit (byte_at buffer x) bitInByte) in
    rc <- Disk_Write i buffer ;;
    if rc <? 0 then set_errno E_GENERAL ;; ret (Return (-1))
    else ret (Return location)
  else ret (Continue location).

Definition lift_ctl {S R : Type} (r : S + R) : M (ctl S R) :=
  match r with
  | inl s => ret (Continue s)
  | inr v => ret (Return v)
  end.

Definition bitmap_first_unused (start num nbits : Z) : M Z :=
  let nBytes := Z.quot nbits 8 in
  let remain_bits := Z.rem nbits 8 in
  r <- for_range (trip start (start + num)) start
    (fun i '(last_block, location, buffer) =>
       let last_block := if nBytes <? SECTOR_SIZE then 1 else last_block in
       '(rc, buffer) <- Disk_Read i buffer ;;
       if rc <? 0 then set_errno E_GENERAL ;; ret (Return (-1))
       else
         let last := if last_block =? 1 then nBytes else SECTOR_SIZE in
         r1 <- for_range (trip 0 last) 0
           (fun x location =>
              r2 <- for_range 8 0
                (fun bitInByte location =>
                   claim_bit i buffer x bitInByte (location + 1))
                location ;;
              lift_ctl r2)
           location ;;
         match r1 with
         | inr v => ret (Return v)
         | inl location =>
             let x := Z.max 0 last in
             if last_block =? 1 then
               r3 <- for_range (trip 0 remain_bits) 0
                 (fun bitInByte location =>
                    claim_bit i buffer x bitInByte (location + 1))
                 location ;;
               match r3 with
               | inr v => ret (Return v)
               | inl location => ret (Continue (last_block, location, buffer))
               end
             else ret (Continue (last_block, location, buffer))
         end)
    (0, -1, stack_buffer) ;;
  match r with
  | inl _ => ret (-1)
  | inr v => ret v
  end.

(** [while(nBytes > SECTOR_SIZE) nBytes = nBytes - SECTOR_SIZE;] *)
Fixpoint reduce_to_sector (fuel : nat) (nBytes : Z) : option Z :=
  if nBytes >? SECTOR_SIZE then
    match fuel with
    | O => None
    | S fuel' => reduce_to_sector fuel' (nBytes - SECTOR_SIZE)
    end
  else Some nBytes.

Definition bitmap_reset (start num ibit : Z) : M Z :=
  let nBytes := Z.quot ibit 8 in
  let remain_bits := Z.rem ibit 8 in
  if nBytes >? SECTOR_SIZE * num then ret (-1)
  else
    match reduce_to_sector (Z.to_nat nBytes) nBytes with
    | None => fun _ => Fault Diverges
    | Some nBytes =>
        '(rc, buffer) <- Disk_Read start stack_buffer ;;
        if rc <? 0 then set_errno E_GENERAL ;; ret (-1)
        else
          let mask := [127; 191; 223; 239; 247; 251; 253; 254] in
          if (0 <=? nBytes) && (nBytes <? SECTOR_SIZE)
             && (0 <=? remain_bits) then
            let buffer :=
              zset buffer nBytes
                   (Z.land (byte_at buffer nBytes)
                           (nth (Z.to_nat remain_bits) mask 0)) in
            rc <- Disk_Write start buffer ;;
            if rc <? 0 then set_errno E_GENERAL ;; ret (-1)
            else ret 0
          else undef
    end.

(** ** File names *)

Definition isalnum (c : byte) : bool :=
  ((48 <=? c) && (c <=? 57)) || ((65 <=? c) && (c <=? 90))
  || ((97 <=? c) && (c <=? 122)).

Definition legal_char (c : byte) : bool :=
  isalnum c || (c =? 46) || (c =? 45) || (c =? 95).

Definition strlen (name : buffer) : Z := Z.of_nat (length name).

(** The scanning loop of [illegal_filename] stops at the first illegal
    character with [flag] false, so [flag] after the loop is [forallb]. *)
Definition illegal_filename (name : buffer) : Z :=
  let flag := forallb legal_char name in
  let flag := if strlen name >? MAX_NAME - 1 then false else flag in
  if flag then 0 else 1.

(** ** Path resolution *)

(** [strcmp(l, t) == 0] for a NUL-free [t] followed by its NUL, where
    [l] is the rest of the buffer that holds the first string: [None]
    when the comparison runs off the end of that buffer. *)
Fixpoint strcmp_eq (l t : buffer) : option bool :=
  match t, l with
  | _, [] => None
  | [], b :: _ => Some (b =? 0)
  | c :: t', b :: l' => if b =? c then strcmp_eq l' t' else Some false
  end.

(** The directory-entry groups of [find_child_inode]: the body of
    [while(nentries > 0)].  The result is the returned inode together
    with the sector number and content of the inode cache. *)
Fixpoint find_child_groups (fuel : nat) (fname : buffer) (offset : Z)
    (cached_inode_sector : Z) (cached_inode_buffer : buffer)
    (nentries idx : Z) : M (Z * Z * buffer) :=
  if nentries >? 0 then
    match fuel with
    | O => fun _ => Fault Diverges
    | S fuel' =>
        sec <- inode_data cached_inode_buffer offset idx ;;
        '(rc, buffer) <- Disk_Read sec stack_buffer ;;
        if rc <? 0 then ret (-2, cached_inode_sector, cached_inode_buffer)
        else
          r <- for_range (trip 0 DIRENTS_PER_SECTOR) 0
            (fun i (_ : unit) =>
               if i >? nentries then ret (Break tt)
               else
                 match strcmp_eq (skipn (Z.to_nat (i * sizeof_dirent_t)) buffer)
                                 fname with
                 | None => undef
                 | Some false => ret (Continue tt)
                 | Some true =>
                     let child_inode := dirent_inode buffer i in
                     let sector := INODE_TABLE_START_SECTOR
                                   + Z.quot child_inode INODES_PER_SECTOR in
                     if negb (sector =? cached_inode_sector) then
                       '(rc, cached) <- Disk_Read sector cached_inode_buffer ;;
                       if rc <? 0 then ret (Return (-2, sector, cached))
                       else ret (Return (child_inode, sector, cached))
                     else ret (Return (child_inode, cached_inode_sector,
                                       cached_inode_buffer))
                 end)
            tt ;;
          match r with
          | inr v => ret v
          | inl _ =>
              find_child_groups fuel' fname offset cached_inode_sector
                cached_inode_buffer (nentries - DIRENTS_PER_SECTOR) (idx + 1)
          end
    end
  else ret (-1, cached_inode_sector, cached_inode_buffer).

Definition find_child_inode (parent_inode : Z) (fname : buffer)
    (cached_inode_sector : Z) (cached_inode_buffer : buffer)
  : M (Z * Z * buffer) :=
  let cached_start_entry :=
    (cached_inode_sector - INODE_TABLE_START_SECTOR) * INODES_PER_SECTOR in
  let offset := parent_inode - cached_start_entry in
  c_assert ((0 <=? offset) && (offset <? INODES_PER_SECTOR)) ;;
  if negb (inode_type cached_inode_buffer offset =? 1)
  then ret (-2, cached_inode_sector, cached_inode_buffer)
  else
    let nentries := inode_size cached_inode_buffer offset in
    find_child_groups (Z.to_nat nentries) fname offset cached_inode_sector
      cached_inode_buffer nentries 0.

(** The tokens that successive [strsep(&lpath, "/")] calls return. *)
Fixpoint strsep_tokens (s acc : buffer) : list buffer :=
  match s with
  | [] => [rev acc]
  | c :: s' => if c =? 47 then rev acc :: strsep_tokens s' []
               else strsep_tokens s' (c :: acc)
  end.

(** The token loop of [follow_path]; [None] is a [return -1] inside the
    loop, otherwise the parent, the child and the last name copied. *)
Fixpoint follow_tokens (toks : list buffer) (parent_inode child_inode : Z)
    (cached_sector : Z) (cached_buffer : buffer)
    (last_filename : option buffer) : M (option (Z * Z * option buffer)) :=
  match toks with
  | [] => ret (Some (parent_inode, child_inode, last_filename))
  | token :: rest =>
      if byte_at token 0 =? 0 then
        follow_tokens rest parent_inode child_inode cached_sector
          cached_buffer last_filename
      else if negb (illegal_filename token =? 0) then ret None
      else if child_inode <? 0 then ret None
      else
        let parent_inode := child_inode in
        '(child_inode, cached_sector, cached_buffer) <-
          find_child_inode parent_inode token cached_sector cached_buffer ;;
        follow_tokens rest parent_inode child_inode cached_sector
          cached_buffer (Some token)
  end.

(** [follow_path(path, &last_inode, last_filename)]: the return value,
    [*last_inode] when the function assigned it, and [last_filename]
    when a token was copied into it.  A path is the characters of a
    C string, without its NUL. *)
Definition follow_path (path : buffer) : M (Z * option Z * option buffer) :=
  if negb (byte_at path 0 =? 47) then ret (-1, None, None)
  else
    let pathstore := firstn (Z.to_nat (MAX_PATH - 1)) (tl path) in
    '(rc, cached_buffer) <- Disk_Read INODE_TABLE_START_SECTOR stack_buffer ;;
    if rc <? 0 then ret (-1, None, None)
    else
      r <- follow_tokens (strsep_tokens pathstore []) (-1) 0
             INODE_TABLE_START_SECTOR cached_buffer None ;;
      match r with
      | None => ret (-1, None, None)
      | Some (parent_inode, child_inode, last_filename) =>
          if child_inode <? -1 then ret (-1, None, last_filename)
          else
            let parent_inode :=
              if (parent_inode =? -1) && (child_inode =? 0) then 0
              else parent_inode in
            ret (parent_inode, Some child_inode, last_filename)
      end.

(** A local that the callee may have left unassigned. *)
Definition read_local {A : Type} (v : option A) : M A :=
  match v with
  | Some a => ret a
  | None => undef
  end.

(** ** Creation *)

Definition add_inode (type parent_inode : Z) (file : buffer) : M Z :=
  child_inode <- bitmap_first_unused INODE_BITMAP_START_SECTOR
                   INODE_BITMAP_SECTORS INODE_BITMAP_SIZE ;;
  if child_inode <? 0 then ret (-1)
  else
    let inode_sector :=
      INODE_TABLE_START_SECTOR + Z.quot child_inode INODES_PER_SECTOR in
    '(rc, inode_buffer) <- Disk_Read inode_sector stack_buffer ;;
    if rc <? 0 then ret (-1)
    else
      let inode_start_index :=
        (inode_sector - INODE_TABLE_START_SECTOR) * INODES_PER_SECTOR in
      let offset := child_inode - inode_start_index in
      c_assert ((0 <=? offset) && (offset <? INODES_PER_SECTOR)) ;;
      let inode_buffer :=
        memset inode_buffer (offset * sizeof_inode_t) 0 sizeof_inode_t in
      let inode_buffer := set_inode_type inode_buffer offset type in
      rc <- Disk_Write inode_sector inode_buffer ;;
      if rc <? 0 then ret (-1)
      else
        let inode_sector :=
          INODE_TABLE_START_SECTOR + Z.quot parent_inode INODES_PER_SECTOR in
        '(rc, inode_buffer) <- Disk_Read inode_sector inode_buffer ;;
        if rc <? 0 then ret (-1)
        else
          let inode_start_index :=
            (inode_sector - INODE_TABLE_START_SECTOR) * INODES_PER_SECTOR in
          let offset := parent_inode - inode_start_index in
          c_assert ((0 <=? offset) && (offset <? INODES_PER_SECTOR)) ;;
          if negb (inode_type inode_buffer offset =? 1) then ret (-2)
          else
            let psize := inode_size inode_buffer offset in
            let group := Z.quot psize DIRENTS_PER_SECTOR in
            r <- (if group * DIRENTS_PER_SECTOR =? psize then
                    newsec <- bitmap_first_unused SECTOR_BITMAP_START_SECTOR
                                SECTOR_BITMAP_SECTORS SECTOR_BITMAP_SIZE ;;
                    if newsec <? 0 then ret None
                    else
                      inode_buffer <-
                        set_inode_data inode_buffer offset group newsec ;;
                      ret (Some (inode_buffer,
                                 memset stack_buffer 0 0 SECTOR_SIZE))
                  else
                    sec <- inode_data inode_buffer offset group ;;
                    '(rc, dirent_buffer) <- Disk_Read sec stack_buffer ;;
                    if rc <? 0 then ret None
                    else ret (Some (inode_buffer, dirent_buffer))) ;;
            match r with
            | None => ret (-1)
            | Some (inode_buffer, dirent_buffer) =>
                let start_entry := group * DIRENTS_PER_SECTOR in
                let doffset := psize - start_entry in
                if (0 <=? doffset) && (doffset <? DIRENTS_PER_SECTOR) then
                  let dirent_buffer :=
                    blit dirent_buffer (doffset * sizeof_dirent_t)
                         (strncpy_bytes file MAX_NAME) in
                  let dirent_buffer :=
                    put_int dirent_buffer
                            (doffset * sizeof_dirent_t + MAX_NAME) child_inode in
                  sec <- inode_data inode_buffer offset group ;;
                  rc <- Disk_Write sec dirent_buffer ;;
                  if rc <? 0 then ret (-1)
                  else
                    let inode_buffer :=
                      set_inode_size inode_buffer offset (psize + 1) in
                    rc <- Disk_Write inode_sector inode_buffer ;;
                    if rc <? 0 then ret (-1) else ret 0
                else undef
            end.

Definition create_file_or_directory (type : Z) (pathname : buffer) : M Z :=
  '(parent_inode, child_inode, last_filename) <- follow_path pathname ;;
  if parent_inode >=? 0 then
    child_inode <- read_local child_inode ;;
    if child_inode >=? 0 then set_errno E_CREATE ;; ret (-1)
    else
      last_filename <- read_local last_filename ;;
      rc <- add_inode type parent_inode last_filename ;;
      if rc >=? 0 then ret 0
      else set_errno E_CREATE ;; ret (-1)
  else set_errno E_CREATE ;; ret (-1).

(** ** Removal *)

(** The characters [strncpy] reads from a source field: up to its NUL. *)
Fixpoint until_nul (l : buffer) : buffer :=
  match l with
  | [] => []
  | b :: t => if b =? 0 then [] else b :: until_nul t
  end.

Definition remove_inode (type parent_inode child_inode : Z) : M Z :=
  let inode_sector :=
    INODE_TABLE_START_SECTOR + Z.quot child_inode INODES_PER_SECTOR in
  '(rc, inode_buffer) <- Disk_Read inode_sector stack_buffer ;;
  if rc <? 0 then ret (-1)
  else
    let inode_start_index :=
      (inode_sector - INODE_TABLE_START_SECTOR) * INODES_PER_SECTOR in
    let offset := child_inode - inode_start_index in
    c_assert ((0 <=? offset) && (offset <? INODES_PER_SECTOR)) ;;
    if negb (inode_type inode_buffer offset =? type) then ret (-3)
    else if (inode_type inode_buffer offset =? 1)
            && (inode_size inode_buffer offset >? 0) then ret (-2)
    else
      (if inode_type inode_buffer offset =? 0 then
         for_range (R := unit) (trip 0 MAX_SECTORS_PER_FILE) 0
           (fun i (_ : unit) =>
              d <- inode_data inode_buffer offset i ;;
              if d >? 0 then
                bitmap_reset SECTOR_BITMAP_START_SECTOR
                             SECTOR_BITMAP_SECTORS d ;;
                ret (Continue tt)
              else ret (Continue tt))
           tt ;;
         ret tt
       else ret tt) ;;
      let inode_buffer :=
        memset inode_buffer (offset * sizeof_inode_t) 0 sizeof_inode_t in
      rc <- Disk_Write inode_sector inode_buffer ;;
      if rc <? 0 then ret (-1)
      else
        bitmap_reset INODE_BITMAP_START_SECTOR INODE_BITMAP_SECTORS
                     child_inode ;;
        let inode_sector :=
          INODE_TABLE_START_SECTOR + Z.quot parent_inode INODES_PER_SECTOR in
        '(rc, inode_buffer) <- Disk_Read inode_sector inode_buffer ;;
        if rc <? 0 then ret (-1)
        else
          let inode_start_index :=
            (inode_sector - INODE_TABLE_START_SECTOR) * INODES_PER_SECTOR in
          let offset := parent_inode - inode_start_index in
          c_assert ((0 <=? offset) && (offset <? INODES_PER_SECTOR)) ;;
          if negb (inode_type inode_buffer offset =? 1) then ret (-2)
          else
            let psize := inode_size inode_buffer offset in
            r <- (if psize >? 1 then
                    let last_group := Z.quot psize DIRENTS_PER_SECTOR in
                    last_sector <- inode_data inode_buffer offset last_group ;;
                    '(rc, last_dirent_buffer) <-
                      Disk_Read last_sector stack_buffer ;;
                    if rc <? 0 then ret (Some (-1))
                    else
                      let start_entry := last_group * DIRENTS_PER_SECTOR in
                      let loffset := psize - start_entry - 1 in
                      r <- for_range (trip 0 MAX_SECTORS_PER_FILE) 0
                        (fun group (_ : unit) =>
                           sec <- inode_data inode_buffer offset group ;;
                           '(rc, dirent_buffer) <- Disk_Read sec stack_buffer ;;
                           if rc <? 0 then ret (Return (-1))
                           else
                             r <- for_range (trip 0 DIRENTS_PER_SECTOR) 0
                               (fun entry (_ : bool) =>
                                  if dirent_inode dirent_buffer entry
                                     =? child_inode then
                                    if (0 <=? loffset)
                                       && (loffset <? DIRENTS_PER_SECTOR) then
                                      let dirent_buffer :=
                                        blit dirent_buffer
                                          (entry * sizeof_dirent_t)
                                          (strncpy_bytes
                                             (until_nul
                                                (slice last_dirent_buffer
                                                   (loffset * sizeof_dirent_t)
                                                   MAX_NAME))
                                             MAX_NAME) in
                                      let dirent_buffer :=
                                        put_int dirent_buffer
                                          (entry * sizeof_dirent_t + MAX_NAME)
                                          (dirent_inode last_dirent_buffer
                                                        loffset) in
                                      (* the last entry is cleared in
                                         [last_dirent_buffer], which no
                                         [Disk_Write] below sends back *)
                                      let last_dirent_buffer :=
                                        memset last_dirent_buffer
                                          (loffset * sizeof_dirent_t) 0
                                          sizeof_dirent_t in
                                      rc <- Disk_Write sec dirent_buffer ;;
                                      if rc <? 0 then ret (Return (-1))
                                      else
                                        rc <- Disk_Write inode_sector
                                                         inode_buffer ;;
                                        if rc <? 0 then ret (Return (-1))
                                        else
                                          (* [group = MAX_SECTORS_PER_FILE;
                                             break;] *)
                                          ret (Break true)
                                    else undef
                                  else ret (Continue false))
                               false ;;
                             match r with
                             | inr v => ret (Return v)
                             | inl true => ret (Break tt)
                             | inl false => ret (Continue tt)
                             end)
                        tt ;;
                      match r with
                      | inr v => ret (Some v)
                      | inl _ => ret None
                      end
                  else ret None) ;;
            match r with
            | Some v => ret v
            | None =>
                let inode_buffer :=
                  set_inode_size inode_buffer offset (psize - 1) in
                rc <- Disk_Write inode_sector inode_buffer ;;
                if rc <? 0 then ret (-1) else ret 0
            end.

(** ** The open-file table *)

(** [open_files[fd]]; an index outside the array is undefined. *)
Definition open_file_at (fd : Z) : M open_file_t :=
  fun s => match zget (open_files s) fd with
           | Some e => Ret e s
           | None => Fault UndefinedBehaviour
           end.

Definition set_open_file (fd : Z) (e : open_file_t) : M unit :=
  fun s => Ret tt (mk_state (disk s) (zset (open_files s) fd e) (osErrno s)).

Definition is_file_open (ino : Z) : M Z :=
  r <- for_range (trip 0 MAX_OPEN_FILES) 0
    (fun i (_ : unit) =>
       e <- open_file_at i ;;
       if inode e =? ino then ret (Return 1) else ret (Continue tt))
    tt ;;
  match r with
  | inr v => ret v
  | inl _ => ret 0
  end.

Definition new_file_fd : M Z :=
  r <- for_range (trip 0 MAX_OPEN_FILES) 0
    (fun i (_ : unit) =>
       e <- open_file_at i ;;
       if inode e <=? 0 then ret (Return i) else ret (Continue tt))
    tt ;;
  match r with
  | inr v => ret v
  | inl _ => ret (-1)
  end.

(** ** API functions *)

(** [memset(open_files, 0, MAX_OPEN_FILES*sizeof(open_file_t))] *)
Definition cleared_open_files : list open_file_t :=
  repeat (mk_open_file 0 0 0) (Z.to_nat MAX_OPEN_FILES).

(** [FS_Boot].  Modelled from the spec: [Disk_Init], [Disk_Load] and
    [Disk_Save] belong to the absent LibDisk.  The backing store is
    [None] when the file cannot be opened, which makes the boot format
    a new volume, and [Some image] when it loads; saving succeeds. *)
Definition FS_Boot (backstore : option (list buffer)) : M Z :=
  fun s0 =>
  match backstore with
  | None =>
      (let buffer := memset stack_buffer 0 0 SECTOR_SIZE in
       let buffer := put_int buffer 0 OS_MAGIC in
       rc <- Disk_Write SUPERBLOCK_START_SECTOR buffer ;;
       if rc <? 0 then set_errno E_GENERAL ;; ret (-1)
       else
         bitmap_init INODE_BITMAP_START_SECTOR INODE_BITMAP_SECTORS 1 ;;
         bitmap_init SECTOR_BITMAP_START_SECTOR SECTOR_BITMAP_SECTORS
                     DATABLOCK_START_SECTOR ;;
         r <- for_range (trip 0 INODE_TABLE_SECTORS) 0
           (fun i (_ : unit) =>
              let buffer := memset buffer 0 0 SECTOR_SIZE in
              let buffer :=
                if i =? 0
                then set_inode_type (set_inode_size buffer 0 0) 0 1
                else buffer in
              rc <- Disk_Write (INODE_TABLE_START_SECTOR + i) buffer ;;
              if rc <? 0 then set_errno E_GENERAL ;; ret (Return (-1))
              else ret (Continue tt))
           tt ;;
         match r with
         | inr v => ret v
         | inl _ => put_open_files cleared_open_files ;; ret 0
         end)
        (mk_state Disk_Init (open_files s0) (osErrno s0))
  | Some image =>
      (if negb (Z.of_nat (length image) =? TOTAL_SECTORS)
       then set_errno E_GENERAL ;; ret (-1)
       else
         m <- check_magic ;;
         if negb (m =? 0) then put_open_files cleared_open_files ;; ret 0
         else set_errno E_GENERAL ;; ret (-1))
        (mk_state image (open_files s0) (osErrno s0))
  end.

Definition File_Create (file : buffer) : M Z :=
  create_file_or_directory 0 file.

Definition File_Unlink (file : buffer) : M Z :=
  '(parent_inode, child_inode, _) <- follow_path file ;;
  if parent_inode >=? 0 then
    child_inode <- read_local child_inode ;;
    if child_inode >=? 0 then
      o <- is_file_open child_inode ;;
      if o =? 1 then set_errno E_FILE_IN_USE ;; ret (-1)
      else
        result <- remove_inode 0 parent_inode child_inode ;;
        if result =? 0 then ret 0
        else if result =? -1 then set_errno E_GENERAL ;; ret (-1)
        else if result =? -2 then set_errno E_DIR_NOT_EMPTY ;; ret (-1)
        else if result =? -3 then set_errno E_GENERAL ;; ret (-1)
        else ret (-1)
    else set_errno E_NO_SUCH_FILE ;; ret (-1)
  else set_errno E_NO_SUCH_FILE ;; ret (-1).

Definition File_Open (file : buffer) : M Z :=
  fd <- new_file_fd ;;
  if fd <? 0 then set_errno E_TOO_MANY_OPEN_FILES ;; ret (-1)
  else
    '(_, child_inode, _) <- follow_path file ;;
    child_inode <- read_local child_inode ;;
    if child_inode >=? 0 then
      let inode_sector :=
        INODE_TABLE_START_SECTOR + Z.quot child_inode INODES_PER_SECTOR in
      '(rc, inode_buffer) <- Disk_Read inode_sector stack_buffer ;;
      if rc <? 0 then set_errno E_GENERAL ;; ret (-1)
      else
        let inode_start_index :=
          (inode_sector - INODE_TABLE_START_SECTOR) * INODES_PER_SECTOR in
        let offset := child_inode - inode_start_index in
        c_assert ((0 <=? offset) && (offset <? INODES_PER_SECTOR)) ;;
        if negb (inode_type inode_buffer offset =? 0)
        then set_errno E_GENERAL ;; ret (-1)
        else
          set_open_file fd
            (mk_open_file child_inode (inode_size inode_buffer offset) 0) ;;
          ret fd
    else set_errno E_NO_SUCH_FILE ;; ret (-1).

(** [memcpy(buffer + dst, buffer + src, n)] inside one sector buffer: the
    [n] bytes at [src] as they were before the call land at [dst]; a
    range that leaves the [SECTOR_SIZE] bytes of the array is undefined. *)
Definition memcpy_within (buf : buffer) (dst src n : Z) : M buffer :=
  if (0 <=? n) && (0 <=? dst) && (dst + n <=? SECTOR_SIZE)
     && (0 <=? src) && (src + n <=? SECTOR_SIZE)
  then ret (blit buf dst (slice buf src n))
  else undef.

(** [open_files[fd].pos += n;] *)
Definition advance_pos (fd n : Z) : M unit :=
  e <- open_file_at fd ;;
  set_open_file fd (mk_open_file (inode e) (size e) (pos e + n)).

(** [File_Read(fd, buffer, size)].  The body declares a local
    [char buffer[SECTOR_SIZE]] under the name of the parameter
    [void* buffer]; read as the text stands, every [buffer] of the
    statements that follow is that local array, and no statement stores
    through the parameter.  The parameter is [user_buffer] here, the
    argument [size] is [nbytes], and the result pairs the return value
    with the caller's memory after the call. *)
Definition File_Read (fd : Z) (user_buffer : buffer) (nbytes : Z)
  : M (Z * buffer) :=
  e <- open_file_at fd ;;
  o <- is_file_open (inode e) ;;
  if negb (o =? 1) then set_errno E_BAD_FD ;; ret (-1, user_buffer)
  else
    end_of_read <- int_arith (pos e + nbytes) ;;
    let end_of_read := if end_of_read >? size e then size e
                       else end_of_read in
    let child_inode := inode e in
    let inode_sector :=
      INODE_TABLE_START_SECTOR + Z.quot child_inode INODES_PER_SECTOR in
    '(rc, inode_buffer) <- Disk_Read inode_sector stack_buffer ;;
    if rc <? 0 then ret (-1, user_buffer)
    else
      let inode_start_index :=
        (inode_sector - INODE_TABLE_START_SECTOR) * INODES_PER_SECTOR in
      let offset := child_inode - inode_start_index in
      c_assert ((0 <=? offset) && (offset <? INODES_PER_SECTOR)) ;;
      if negb (inode_type inode_buffer offset =? 0)
      then set_errno E_GENERAL ;; ret (-1, user_buffer)
      else
        let bytes_to_read := end_of_read - pos e in
        let bytes_read := bytes_to_read in
        let offset_sector_toLoad := Z.quot (pos e) SECTOR_SIZE in
        let sector_index := Z.rem (pos e) SECTOR_SIZE in
        let sector_bytes :=
          if bytes_to_read <? SECTOR_SIZE then bytes_to_read
          else SECTOR_SIZE - sector_index in
        let buffer_index := 0 in
        let sectors_to_read :=
          Z.quot (end_of_read - (SECTOR_SIZE - sector_index)) SECTOR_SIZE in
        let buffer := stack_buffer in
        if size e <=? pos e then ret (0, user_buffer)
        else
          r <- for_range
            (trip offset_sector_toLoad
                  (offset_sector_toLoad + sectors_to_read + 1))
            offset_sector_toLoad
            (fun i '(buffer, buffer_index, bytes_to_read, sector_bytes) =>
               if i >? MAX_SECTORS_PER_FILE
               then set_errno E_FILE_TOO_BIG ;; ret (Return (-1))
               else
                 d <- inode_data inode_buffer offset i ;;
                 '(rc, buffer) <- Disk_Read d buffer ;;
                 if rc =? 0 then
                   buffer <- memcpy_within buffer buffer_index sector_index
                               sector_bytes ;;
                   advance_pos fd sector_bytes ;;
                   let buffer_index := buffer_index + sector_bytes in
                   let bytes_to_read := bytes_to_read - sector_bytes in
                   let sector_bytes :=
                     if bytes_to_read <? SECTOR_SIZE then bytes_to_read
                     else SECTOR_SIZE in
                   ret (Continue (buffer, buffer_index, bytes_to_read,
                                  sector_bytes))
                 else set_errno E_GENERAL ;; ret (Return (-1)))
            (buffer, buffer_index, bytes_to_read, sector_bytes) ;;
          match r with
          | inr v => ret (v, user_buffer)
          | inl _ => ret (bytes_read, user_buffer)
          end.

(** The locals that the sector loop of [File_Write] changes. *)
Record write_locals : Type := mk_write_locals {
  w_inode_buffer : buffer;
  w_buffer : buffer;
  w_buffer_index : Z;
  w_remainder_bytes : Z;
  w_sector_bytes : Z
}.

(** [File_Write(fd, buffer, size)].  As in [File_Read], the local
    [char buffer[SECTOR_SIZE]] takes the name of the parameter, here
    [user_buffer]: the statements never read the caller's bytes. *)
Definition File_Write (fd : Z) (user_buffer : buffer) (nbytes : Z) : M Z :=
  e <- open_file_at fd ;;
  o <- is_file_open (inode e) ;;
  if negb (o =? 1) then set_errno E_BAD_FD ;; ret (-1)
  else
    grown <- int_arith (size e + nbytes) ;;
    if grown >? MAX_FILE_SIZE then set_errno E_FILE_TOO_BIG ;; ret (-1)
    else
      let child_inode := inode e in
      let inode_sector :=
        INODE_TABLE_START_SECTOR + Z.quot child_inode INODES_PER_SECTOR in
      '(rc, inode_buffer) <- Disk_Read inode_sector stack_buffer ;;
      if rc <? 0 then ret (-1)
      else
        let inode_start_index :=
          (inode_sector - INODE_TABLE_START_SECTOR) * INODES_PER_SECTOR in
        let offset := child_inode - inode_start_index in
        c_assert ((0 <=? offset) && (offset <? INODES_PER_SECTOR)) ;;
        if negb (inode_type inode_buffer offset =? 0)
        then set_errno E_GENERAL ;; ret (-1)
        else
          let offset_sector_toLoad := Z.quot (pos e) SECTOR_SIZE in
          let sector_index := Z.rem (pos e) SECTOR_SIZE in
          end_pos <- int_arith (pos e + nbytes) ;;
          let remainder_bytes :=
            if MAX_FILE_SIZE <? end_pos then MAX_FILE_SIZE - pos e
            else nbytes in
          let sector_bytes := SECTOR_SIZE - sector_index in
          let buffer_index := 0 in
          let sectors_to_write :=
            Z.quot (nbytes - (SECTOR_SIZE - sector_index)) SECTOR_SIZE in
          r <- for_range
            (trip offset_sector_toLoad (sectors_to_write + 1))
            offset_sector_toLoad
            (fun i w =>
               if i >? MAX_SECTORS_PER_FILE
               then set_errno E_FILE_TOO_BIG ;; ret (Return (-1))
               else
                 d <- inode_data (w_inode_buffer w) offset i ;;
                 r <- (if d =? 0 then
                         newsec <- bitmap_first_unused
                                     SECTOR_BITMAP_START_SECTOR
                                     SECTOR_BITMAP_SECTORS SECTOR_BITMAP_SIZE ;;
                         inode_buffer <-
                           set_inode_data (w_inode_buffer w) offset i newsec ;;
                         if newsec <? 0
                         then set_errno E_NO_SPACE ;; ret None
                         else ret (Some (inode_buffer, newsec))
                       else ret (Some (w_inode_buffer w, d))) ;;
                 match r with
                 | None => ret (Return (-1))
                 | Some (inode_buffer, d) =>
                     '(rc, buffer) <- Disk_Read d (w_buffer w) ;;
                     if rc =? 0 then
                       buffer <- memcpy_within buffer sector_index
                                   (w_buffer_index w) (w_sector_bytes w) ;;
                       advance_pos fd (w_sector_bytes w) ;;
                       let buffer_index :=
                         w_buffer_index w + w_sector_bytes w in
                       let remainder_bytes :=
                         w_remainder_bytes w - w_sector_bytes w in
                       let sector_bytes :=
                         if remainder_bytes <? SECTOR_SIZE
                         then remainder_bytes else SECTOR_SIZE in
                       rc <- Disk_Write d buffer ;;
                       if rc <? 0
                       then set_errno E_GENERAL ;; ret (Return (-1))
                       else
                         ret (Continue
                                (mk_write_locals inode_buffer buffer
                                   buffer_index remainder_bytes sector_bytes))
                     else set_errno E_GENERAL ;; ret (Return (-1))
                 end)
            (mk_write_locals inode_buffer stack_buffer buffer_index
               remainder_bytes sector_bytes) ;;
          match r with
          | inr v => ret v
          | inl w =>
              e' <- open_file_at fd ;;
              set_open_file fd (mk_open_file (inode e') (pos e') (pos e')) ;;
              let inode_buffer :=
                set_inode_size (w_inode_buffer w) offset (pos e') in
              rc <- Disk_Write inode_sector inode_buffer ;;
              if rc <? 0 then set_errno E_GENERAL ;; ret (-1)
              else ret nbytes
          end.

Definition File_Seek (fd offset : Z) : M Z :=
  e <- open_file_at fd ;;
  o <- is_file_open (inode e) ;;
  if negb (o =? 1) then set_errno E_BAD_FD ;; ret (-1)
  else if (size e <? offset) || (size e <? 0)
  then set_errno E_SEEK_OUT_OF_BOUNDS ;; ret (-1)
  else
    set_open_file fd (mk_open_file (inode e) (size e) offset) ;;
    ret offset.

Definition File_Close (fd : Z) : M Z :=
  if (0 >? fd) || (fd >? MAX_OPEN_FILES) then set_errno E_BAD_FD ;; ret (-1)
  else
    e <- open_file_at fd ;;
    if inode e <=? 0 then set_errno E_BAD_FD ;; ret (-1)
    else
      set_open_file fd (mk_open_file 0 (size e) (pos e)) ;;
      ret 0.

Definition Dir_Create (path : buffer) : M Z :=
  create_file_or_directory 1 path.

Definition Dir_Unlink (path : buffer) : M Z :=
  '(parent_inode, child_inode, _) <- follow_path path ;;
  if parent_inode >=? 0 then
    child_inode <- read_local child_inode ;;
    if child_inode >=? 0 then
      result <- remove_inode 1 parent_inode child_inode ;;
      if result =? 0 then ret 0
      else if result =? -1 then set_errno E_GENERAL ;; ret (-1)
      else if result =? -2 then set_errno E_DIR_NOT_EMPTY ;; ret (-1)
      else if result =? -3 then set_errno E_GENERAL ;; ret (-1)
      else ret (-1)
    else set_errno E_NO_SUCH_DIR ;; ret (-1)
  else set_errno E_NO_SUCH_DIR ;; ret (-1).

Definition Dir_Size (path : buffer) : M Z :=
  '(_, child_inode, _) <- follow_path path ;;
  child_inode <- read_local child_inode ;;
  if child_inode >=? 0 then
    let inode_sector :=
      INODE_TABLE_START_SECTOR + Z.quot child_inode INODES_PER_SECTOR in
    '(rc, inode_buffer) <- Disk_Read inode_sector stack_buffer ;;
    if rc <? 0 then set_errno E_GENERAL ;; ret (-1)
    else
      let inode_start_index :=
        (inode_sector - INODE_TABLE_START_SECTOR) * INODES_PER_SECTOR in
      let offset := child_inode - inode_start_index in
      c_assert ((0 <=? offset) && (offset <? INODES_PER_SECTOR)) ;;
      if inode_type inode_buffer offset =? 0
      then set_errno E_GENERAL ;; ret (-1)
      else ret (to_int (inode_size inode_buffer offset * sizeof_dirent_t))
  else set_errno E_GENERAL ;; ret (-1).

(** [memcpy(buffer + at, src, n)] into the caller's memory, which holds
    [length user_buffer] bytes. *)
Definition memcpy_out (user_buffer : buffer) (at_ : Z) (src : buffer)
  : M buffer :=
  if (0 <=? at_) && (at_ + strlen src <=? strlen user_buffer)
  then ret (blit user_buffer at_ src)
  else undef.

(** [Dir_Read(path, buffer, size)]: the return value and the caller's
    memory after the call. *)
Definition Dir_Read (path : buffer) (user_buffer : buffer) (nbytes : Z)
  : M (Z * buffer) :=
  '(_, child_inode, _) <- follow_path path ;;
  child_inode <- read_local child_inode ;;
  let counter := 0 in
  if child_inode >=? 0 then
    dsize <- Dir_Size path ;;
    if nbytes <? dsize
    then set_errno E_BUFFER_TOO_SMALL ;; ret (-1, user_buffer)
    else
      let inode_sector :=
        INODE_TABLE_START_SECTOR + Z.quot child_inode INODES_PER_SECTOR in
      '(rc, inode_buffer) <- Disk_Read inode_sector stack_buffer ;;
      if rc <? 0 then set_errno E_GENERAL ;; ret (-1, user_buffer)
      else
        let inode_start_index :=
          (inode_sector - INODE_TABLE_START_SECTOR) * INODES_PER_SECTOR in
        let offset := child_inode - inode_start_index in
        c_assert ((0 <=? offset) && (offset <? INODES_PER_SECTOR)) ;;
        let csize := inode_size inode_buffer offset in
        r <- for_range (trip 0 MAX_SECTORS_PER_FILE) 0
          (fun i '(user_buffer, counter) =>
             d <- inode_data inode_buffer offset i ;;
             '(rc, data_buffer) <- Disk_Read d stack_buffer ;;
             if rc <? 0
             then set_errno E_GENERAL ;; ret (Return (-1, user_buffer))
             else
               r <- for_range (R := Empty_set) (trip 0 DIRENTS_PER_SECTOR) 0
                 (fun j '(user_buffer, counter) =>
                    if counter <? csize then
                      user_buffer <-
                        memcpy_out user_buffer (j * sizeof_dirent_t)
                          (dirent_bytes data_buffer j) ;;
                      ret (Continue (user_buffer, counter + 1))
                    else ret (Break (user_buffer, counter)))
                 (user_buffer, counter) ;;
               match r with
               | inr v => match v with end
               | inl (user_buffer, counter) =>
                   if counter =? csize
                   then ret (Return (csize, user_buffer))
                   else ret (Continue (user_buffer, counter))
               end)
          (user_buffer, counter) ;;
        match r with
        | inr v => ret v
        | inl (user_buffer, _) => ret (-1, user_buffer)
        end
  else set_errno E_GENERAL ;; ret (-1, user_buffer).

End LibFS.

(** ** Views of the disk used in the statements *)

Section Views.
Context {P : Params}.

(** The inode [ino] as the inode table on the disk of [st] holds it. *)
Definition disk_inode_size (st : fs_state) (ino : Z) : option Z :=
  match zget (disk st)
             (INODE_TABLE_START_SECTOR + Z.quot ino INODES_PER_SECTOR) with
  | Some buf => Some (inode_size buf (Z.rem ino INODES_PER_SECTOR))
  | None => None
  end.

Definition disk_inode_type (st : fs_state) (ino : Z) : option Z :=
  match zget (disk st)
             (INODE_TABLE_START_SECTOR + Z.quot ino INODES_PER_SECTOR) with
  | Some buf => Some (inode_type buf (Z.rem ino INODES_PER_SECTOR))
  | None => None
  end.

Definition disk_inode_data (st : fs_state) (ino i : Z) : option Z :=
  match zget (disk st)
             (INODE_TABLE_START_SECTOR + Z.quot ino INODES_PER_SECTOR) with
  | Some buf =>
      Some (get_int buf (Z.rem ino INODES_PER_SECTOR * sizeof_inode_t
                         + 8 + 4 * i))
  | None => None
  end.

(** Entry [i] of the directory sector [sec] on the disk of [st]. *)
Definition disk_dirent (st : fs_state) (sec i : Z) : option buffer :=
  match zget (disk st) sec with
  | Some buf => Some (dirent_bytes buf i)
  | None => None
  end.

(** The record of a directory entry: the name padded to [MAX_NAME]
    bytes, then the inode number. *)
Definition dirent_record (name : string) (ino : Z) : buffer :=
  put_int (strncpy_bytes (bytes_of_string name) MAX_NAME ++ [0; 0; 0; 0])
          MAX_NAME ino.

End Views.

(** ** Vocabulary of the statements *)

(** [post m Q]: every run of [m] that returns satisfies [Q] on the
    state before, the value returned and the state after. *)
Definition post {A : Type} (m : M A)
    (Q : fs_state -> A -> fs_state -> Prop) : Prop :=
  forall s a s', m s = Ret a s' -> Q s a s'.

(** [returns Q m]: every value [m] returns satisfies [Q]. *)
Definition returns {A : Type} (Q : A -> Prop) (m : M A) : Prop :=
  post m (fun _ a _ => Q a).

(** A relation between the state before and after a call that is kept
    by doing nothing and by doing two things in a row. *)
Class StateOrder (R : fs_state -> fs_state -> Prop) : Prop := {
  so_refl : forall s, R s s;
  so_trans : forall s1 s2 s3, R s1 s2 -> R s2 s3 -> R s1 s3
}.

Definition preserves {A : Type} (R : fs_state -> fs_state -> Prop)
    (m : M A) : Prop :=
  post m (fun s _ s' => R s s').

(** [errno_kept e]: [osErrno] is [e] afterwards only if it was before,
    that is, the call did not report [e]. *)
Definition errno_kept (e : FS_Error) (s s' : fs_state) : Prop :=
  osErrno s' = e -> osErrno s = e.

(** Slot [fd] holds the inode and size of [e] and a cursor that [c]
    accepts. *)
Definition cursor_at (fd : Z) (e : open_file_t) (c : Z -> Prop)
    (st : fs_state) : Prop :=
  exists p, zget (open_files st) fd
            = Some (mk_open_file (inode e) (size e) p) /\ c p.

(** The table holds its [MAX_OPEN_FILES] entries. *)
Definition table_ok (st : fs_state) : Prop :=
  length (open_files st) = Z.to_nat MAX_OPEN_FILES.

(** ** A configuration to run the code on *)

(** One configuration of the constants, used to run the functions on
    concrete volumes: 512-byte sectors, 10000 sectors, 1000 files and 30
    sectors per file. *)
#[export] Instance std_params : Params := {|
  SECTOR_SIZE := 512;
  TOTAL_SECTORS := 10000;
  MAX_FILES := 1000;
  MAX_SECTORS_PER_FILE := 30
|}.

(** The machine before [FS_Boot]: no disk yet, a zeroed [open_files]. *)
Definition power_on (e : FS_Error) : fs_state :=
  mk_state [] cleared_open_files e.

(** The value a call returns and the state it leaves, taken from one
    run; a run that faults has no value and leaves the state alone. *)
Definition value_of {A : Type} (m : M A) (st : fs_state) : option A :=
  match m st with
  | Ret a _ => Some a
  | Fault _ => None
  end.

Definition state_after {A : Type} (m : M A) (st : fs_state) : fs_state :=
  match m st with
  | Ret _ st' => st'
  | Fault _ => st
  end.

Definition with_errno (e : FS_Error) (st : fs_state) : fs_state :=
  mk_state (disk st) (open_files st) e.

Definition str (s : string) : buffer := bytes_of_string s.

(** ** Volumes used in the examples *)

(** A freshly formatted volume. *)
Definition fresh_volume : fs_state :=
  state_after (FS_Boot None) (power_on E_GENERAL).

(** [/a.txt] created, then opened as descriptor 0. *)
Definition vol_created : fs_state :=
  state_after (File_Create (str "/a.txt")) fresh_volume.
Definition vol_opened : fs_state :=
  state_after (File_Open (str "/a.txt")) vol_created.

(** One byte written through descriptor 0, the file closed and opened
    again. *)
Definition vol_written : fs_state :=
  state_after (File_Write 0 [65] 1) vol_opened.
Definition vol_closed : fs_state :=
  state_after (File_Close 0) vol_written.
Definition vol_reopened : fs_state :=
  state_after (File_Open (str "/a.txt")) vol_closed.

(** After the first write, 1024 more bytes, and the cursor back at 0. *)
Definition vol_two_sectors : fs_state :=
  state_after (File_Write 0 (repeat 66 1024) 1024) vol_written.
Definition vol_rewound : fs_state :=
  state_after (File_Seek 0 0) vol_two_sectors.

(** After the first write, the cursor back at 0. *)
Definition vol_seek0 : fs_state :=
  state_after (File_Seek 0 0) vol_written.

(** Every slot of the open-file table in use. *)
Definition vol_table_full : fs_state :=
  mk_state (disk vol_created)
           (repeat (mk_open_file 1 0 0) (Z.to_nat MAX_OPEN_FILES))
           (osErrno vol_created).

(** [/a] and [/b] in the root directory; then the file [a], inode 1,
    removed from the root directory, inode 0, as [File_Unlink("/a")]
    does it. *)
Definition vol_ab : fs_state :=
  state_after (File_Create (str "/b"))
    (state_after (File_Create (str "/a")) fresh_volume).
Definition vol_ab_minus_a : fs_state :=
  state_after (remove_inode 0 0 1) vol_ab.

(** [/a], [/b] and [/c]; then [/b] unlinked, [/c] unlinked, and [/c]
    unlinked once more. *)
Definition vol_abc : fs_state :=
  state_after (File_Create (str "/c")) vol_ab.
Definition vol_abc_minus_b : fs_state :=
  state_after (File_Unlink (str "/b")) vol_abc.
Definition vol_abc_minus_bc : fs_state :=
  state_after (File_Unlink (str "/c")) vol_abc_minus_b.
Definition vol_abc_minus_bcc : fs_state :=
  state_after (File_Unlink (str "/c")) vol_abc_minus_bc.

(** Twenty-six files [/f00] ... [/f25] in the root directory: one more
    than a directory sector holds. *)
Definition file_names : list string :=
  ["f00"; "f01"; "f02"; "f03"; "f04"; "f05"; "f06"; "f07"; "f08"; "f09";
   "f10"; "f11"; "f12"; "f13"; "f14"; "f15"; "f16"; "f17"; "f18"; "f19";
   "f20"; "f21"; "f22"; "f23"; "f24"; "f25"]%string.

Definition create_all (names : list string) (st : fs_state) : fs_state :=
  fold_left (fun st n => state_after (File_Create (str (String "/" n))) st)
            names st.

Definition vol_26_files : fs_state := create_all file_names fresh_volume.
Definition vol_25_files : fs_state :=
  create_all (firstn 25 file_names) fresh_volume.

(** * Reasoning about runs *)

Section Runs.
Context {P : Params}.

Lemma bind_ret_inv {A B : Type} (m : M A) (k : A -> M B) s b s2 :
  bind m k s = Ret b s2 ->
  exists a s1, m s = Ret a s1 /\ k a s1 = Ret b s2.
Proof.
  unfold bind. destruct (m s) as [a s1|f]; [|discriminate].
  intros H. exists a, s1. split; [reflexivity|exact H].
Qed.

Lemma bind_step {A B : Type} (m : M A) (k : A -> M B) s a s1 r :
  m s = Ret a s1 -> k a s1 = r -> bind m k s = r.
Proof. unfold bind. intros -> ->. reflexivity. Qed.

Lemma Disk_Read_sector st sec b buf :
  zget (disk st) sec = Some buf -> Disk_Read sec b st = Ret (0, buf) st.
Proof. unfold Disk_Read. intros ->. reflexivity. Qed.

#[export] Instance errno_kept_order e : StateOrder (errno_kept e).
Proof. split; unfold errno_kept; auto. Qed.

#[export] Instance eq_order : StateOrder (@eq fs_state).
Proof. split; congruence. Qed.

Section Preserves.
Context (R : fs_state -> fs_state -> Prop) {HR : StateOrder R}.

Lemma preserves_ret {A : Type} (a : A) : preserves R (ret a).
Proof. intros s a' s' H. inversion H; subst. apply so_refl. Qed.

Lemma preserves_undef {A : Type} : preserves R (@undef A).
Proof. intros s a' s' H. discriminate H. Qed.

Lemma preserves_fault {A : Type} f :
  preserves R (fun _ : fs_state => @Fault A f).
Proof. intros s a' s' H. discriminate H. Qed.

Lemma preserves_bind {A B : Type} (m : M A) (k : A -> M B) :
  preserves R m -> (forall a, preserves R (k a)) -> preserves R (bind m k).
Proof.
  intros Hm Hk s b s2 H.
  apply bind_ret_inv in H. destruct H as (a & s1 & H1 & H2).
  eapply so_trans; [eapply Hm; exact H1|eapply Hk; exact H2].
Qed.

Lemma preserves_Disk_Read sec buf : preserves R (Disk_Read sec buf).
Proof.
  intros s a s' H. unfold Disk_Read in H.
  destruct (zget (disk s) sec); inversion H; subst; apply so_refl.
Qed.

Lemma preserves_open_file_at fd : preserves R (open_file_at fd).
Proof.
  intros s a s' H. unfold open_file_at in H.
  destruct (zget (open_files s) fd); inversion H; subst; apply so_refl.
Qed.

Lemma preserves_c_assert c : preserves R (c_assert c).
Proof.
  intros s a s' H. unfold c_assert in H.
  destruct c; inversion H; subst; apply so_refl.
Qed.

Lemma preserves_int_arith z : preserves R (int_arith z).
Proof.
  unfold int_arith. destruct (in_int z);
    [apply preserves_ret|apply preserves_undef].
Qed.

Lemma preserves_inode_data buf off i : preserves R (inode_data buf off i).
Proof.
  unfold inode_data. destruct (data_in_bounds i);
    [apply preserves_ret|apply preserves_undef].
Qed.

Lemma preserves_set_inode_data buf off i v :
  preserves R (set_inode_data buf off i v).
Proof.
  unfold set_inode_data. destruct (data_in_bounds i);
    [apply preserves_ret|apply preserves_undef].
Qed.

Lemma preserves_memcpy_within buf d s n :
  preserves R (memcpy_within buf d s n).
Proof.
  unfold memcpy_within.
  match goal with |- preserves _ (if ?c then _ else _) => destruct c end;
    [apply preserves_ret|apply preserves_undef].
Qed.

Lemma preserves_memcpy_out ub at_ src : preserves R (memcpy_out ub at_ src).
Proof.
  unfold memcpy_out.
  match goal with |- preserves _ (if ?c then _ else _) => destruct c end;
    [apply preserves_ret|apply preserves_undef].
Qed.

Lemma preserves_read_local {A : Type} (v : option A) :
  preserves R (read_local v).
Proof.
  destruct v; [apply preserves_ret|apply preserves_undef].
Qed.

Lemma preserves_lift_ctl {S X : Type} (r : S + X) : preserves R (lift_ctl r).
Proof. destruct r; apply preserves_ret. Qed.

(** A loop whose body keeps [R] in the range it runs over keeps [R]. *)
Lemma preserves_for_range {S X : Type} (body : Z -> S -> M (ctl S X)) :
  forall n lo,
    (forall i s, lo <= i < lo + Z.of_nat n -> preserves R (body i s)) ->
    forall s, preserves R (for_range n lo body s).
Proof.
  induction n as [|n IH]; intros lo Hb s.
  - simpl. apply preserves_ret.
  - cbn [for_range]. apply preserves_bind.
    + apply Hb. lia.
    + intros [s1|s1|r].
      * apply IH. intros i s2 Hi. apply Hb. lia.
      * apply preserves_ret.
      * apply preserves_ret.
Qed.

End Preserves.

Lemma errno_kept_set_errno e e' :
  e' <> e -> preserves (errno_kept e) (set_errno e').
Proof.
  intros Hne s a s' H. inversion H; subst.
  unfold errno_kept. simpl. intros E. contradiction.
Qed.

Lemma errno_kept_Disk_Write e sec buf :
  preserves (errno_kept e) (Disk_Write sec buf).
Proof.
  intros s a s' H. unfold Disk_Write in H.
  destruct (zget (disk s) sec); inversion H; subst; unfold errno_kept; auto.
Qed.

Lemma errno_kept_set_open_file e fd x :
  preserves (errno_kept e) (set_open_file fd x).
Proof. intros s a s' H. inversion H; subst. unfold errno_kept. auto. Qed.

Lemma errno_kept_put_open_files e t :
  preserves (errno_kept e) (put_open_files t).
Proof. intros s a s' H. inversion H; subst. unfold errno_kept. auto. Qed.

(** The value that a loop hands to [return]. *)
Lemma for_range_returns {S X : Type} (Q : X -> Prop)
    (body : Z -> S -> M (ctl S X)) :
  forall n lo,
    (forall i s, lo <= i < lo + Z.of_nat n ->
                 post (body i s) (fun _ c _ =>
                   match c with Return r => Q r | _ => True end)) ->
    forall s, post (for_range n lo body s) (fun _ c _ =>
                match c with inr r => Q r | inl _ => True end).
Proof.
  induction n as [|n IH]; intros lo Hb s st c st' H.
  - simpl in H. inversion H; subst. exact I.
  - cbn [for_range] in H.
    apply bind_ret_inv in H. destruct H as (c1 & s1 & H1 & H2).
    pose proof (Hb lo s ltac:(lia) _ _ _ H1) as Hc.
    destruct c1 as [s2|s2|r].
    + eapply IH; [|exact H2]. intros i s3 Hi. apply Hb. lia.
    + inversion H2; subst. exact I.
    + inversion H2; subst. exact Hc.
Qed.

End Runs.

Create HintDb fs_pres.
#[export] Hint Resolve preserves_ret preserves_undef preserves_fault
  preserves_Disk_Read preserves_open_file_at preserves_c_assert
  preserves_int_arith preserves_inode_data preserves_set_inode_data
  preserves_memcpy_within preserves_memcpy_out preserves_read_local
  preserves_lift_ctl errno_kept_Disk_Write errno_kept_set_open_file
  errno_kept_put_open_files : fs_pres.
#[export] Hint Extern 1 (preserves (errno_kept _) (set_errno _)) =>
  apply errno_kept_set_errno; discriminate : fs_pres.

(** One structural step on a goal [preserves R m]. *)
Ltac pres_step :=
  match goal with
  | |- preserves _ (bind _ _) => refine (preserves_bind _ _ _ _ _); [|intro]
  | |- preserves _ (for_range _ _ _ _) =>
      refine (preserves_for_range _ _ _ _ _ _); intros ? ? ?
  | |- preserves _ (if ?c then _ else _) => destruct c eqn:?
  | |- preserves _ (match ?x with _ => _ end) => destruct x eqn:?
  | |- preserves _ _ => solve [auto with fs_pres typeclass_instances]
  | |- preserves _ _ => progress cbv beta
  end.

Ltac pres := repeat pres_step.

(** * The open-file table *)

Section Table.
Context {P : Params}.

Lemma zget_Some_In {A : Type} (l : list A) i x :
  zget l i = Some x -> In x l.
Proof.
  unfold zget. destruct (i <? 0); [discriminate|].
  apply nth_error_In.
Qed.

Lemma zget_in_range {A : Type} (l : list A) i :
  0 <= i < Z.of_nat (length l) -> exists x, zget l i = Some x.
Proof.
  intros Hi. unfold zget.
  destruct (i <? 0) eqn:E; [apply Z.ltb_lt in E; lia|].
  destruct (nth_error l (Z.to_nat i)) as [x|] eqn:N.
  - exists x. reflexivity.
  - apply nth_error_None in N. lia.
Qed.

Lemma zget_Some_range {A : Type} (l : list A) i x :
  zget l i = Some x -> 0 <= i < Z.of_nat (length l).
Proof.
  unfold zget. destruct (i <? 0) eqn:E; [discriminate|].
  apply Z.ltb_ge in E. intros N.
  assert (Z.to_nat i < length l)%nat by (apply nth_error_Some; congruence).
  lia.
Qed.

Lemma for_range_skip {S R : Type} (body : Z -> S -> M (ctl S R)) s st :
  forall n lo,
    (forall i, lo <= i < lo + Z.of_nat n -> body i s st = Ret (Continue s) st) ->
    for_range n lo body s st = Ret (inl s) st.
Proof.
  induction n as [|n IH]; intros lo Hb.
  - reflexivity.
  - cbn [for_range]. eapply bind_step; [apply Hb; lia|].
    apply IH. intros i Hi. apply Hb. lia.
Qed.

(** The scan of [is_file_open] meets the slot that holds the inode. *)
Lemma is_file_open_scan (ino : Z) (st : fs_state) :
  forall n lo,
    (forall i, lo <= i < lo + Z.of_nat n ->
               exists e, zget (open_files st) i = Some e) ->
    (exists j e, lo <= j < lo + Z.of_nat n
                 /\ zget (open_files st) j = Some e /\ inode e = ino) ->
    for_range n lo
      (fun i (_ : unit) =>
         e <- open_file_at i ;;
         if inode e =? ino then ret (Return 1) else ret (Continue tt))
      tt st = Ret (inr 1) st.
Proof.
  induction n as [|n IH]; intros lo Hall (j & e & Hj & Hg & He).
  - lia.
  - cbn [for_range]. destruct (Hall lo ltac:(lia)) as (e0 & H0).
    assert (Hat : open_file_at lo st = Ret e0 st).
    { unfold open_file_at. rewrite H0. reflexivity. }
    destruct (inode e0 =? ino) eqn:E.
    + eapply bind_step;
        [eapply bind_step; [exact Hat|]; rewrite E; reflexivity
        |reflexivity].
    + eapply bind_step;
        [eapply bind_step; [exact Hat|]; rewrite E; reflexivity|].
      replace (Z.of_nat (S n)) with (Z.of_nat n + 1) in * by lia.
      apply IH.
      * intros i Hi. apply Hall. lia.
      * exists j, e. repeat split; try assumption; try lia.
        destruct (Z.eq_dec j lo) as [->|]; [|lia].
        rewrite H0 in Hg. inversion Hg; subst.
        apply Z.eqb_neq in E. contradiction.
Qed.

(** [is_file_open] is asked about the inode stored in [open_files[fd]],
    and slot [fd] itself answers: the test holds for every descriptor of
    the table, used or free. *)
Lemma is_file_open_self (st : fs_state) (fd : Z) (e : open_file_t) :
  table_ok st ->
  zget (open_files st) fd = Some e ->
  is_file_open (inode e) st = Ret 1 st.
Proof.
  intros Hok Hfd. unfold is_file_open.
  pose proof (zget_Some_range _ _ _ Hfd) as Hr. rewrite Hok in Hr.
  assert (Hscan := is_file_open_scan (inode e) st
                     (trip 0 MAX_OPEN_FILES) 0).
  unfold trip in *. rewrite Z.sub_0_r in *.
  eapply bind_step; [apply Hscan|reflexivity].
  - intros i Hi. apply zget_in_range. rewrite Hok. lia.
  - exists fd, e. repeat split; try assumption; lia.
Qed.

Lemma new_file_fd_full (st : fs_state) :
  table_ok st ->
  (forall e, In e (open_files st) -> 0 < inode e) ->
  new_file_fd st = Ret (-1) st.
Proof.
  intros Hok Hused. unfold new_file_fd.
  eapply bind_step; [apply for_range_skip|reflexivity]. intros i Hi.
  unfold trip in Hi. rewrite Z.sub_0_r in Hi.
  destruct (zget_in_range (open_files st) i) as (e & He).
  { rewrite Hok. lia. }
  pose proof (Hused e (zget_Some_In _ _ _ He)) as Hpos.
  eapply bind_step; [unfold open_file_at; rewrite He; reflexivity|].
  destruct (inode e <=? 0) eqn:E; [apply Z.leb_le in E; lia|reflexivity].
Qed.

End Table.

(** * File descriptors: [File_Open], [File_Seek], the descriptor test *)

Section Descriptors.
Context {P : Params}.

(** C9.  [File_Open] asks [new_file_fd] for a slot before it looks at
    the path: when every slot of the open-file table is in use (holds an
    inode number above 0), the call fails with [E_TOO_MANY_OPEN_FILES]
    whatever the path is, existing or not, and does nothing else. *)
Theorem File_Open_table_full (st : fs_state) (file : buffer) :
  table_ok st ->
  forallb (fun e => 0 <? inode e) (open_files st) = true ->
  File_Open file st = Ret (-1) (with_errno E_TOO_MANY_OPEN_FILES st).
Proof.
  intros Hok Hused. unfold File_Open.
  eapply bind_step; [apply new_file_fd_full; [assumption|]|reflexivity].
  intros e He. rewrite forallb_forall in Hused.
  apply Z.ltb_lt. apply Hused. exact He.
Qed.

(** What [File_Seek] does on a descriptor of the table: the only test
    that can fail is [size < offset || size < 0]. *)
Lemma File_Seek_spec (st : fs_state) (fd offset : Z) (e : open_file_t) :
  table_ok st ->
  zget (open_files st) fd = Some e ->
  File_Seek fd offset st =
    if (size e <? offset) || (size e <? 0)
    then Ret (-1) (with_errno E_SEEK_OUT_OF_BOUNDS st)
    else Ret offset
           (mk_state (disk st)
              (zset (open_files st) fd
                    (mk_open_file (inode e) (size e) offset))
              (osErrno st)).
Proof.
  intros Hok Hfd. unfold File_Seek.
  eapply bind_step; [unfold open_file_at; rewrite Hfd; reflexivity|].
  eapply bind_step; [eapply is_file_open_self; eassumption|].
  cbn [Z.eqb Pos.eqb negb].
  destruct ((size e <? offset) || (size e <? 0)); reflexivity.
Qed.

(** C2, at the failing inputs.  The second disjunct of the range test
    reads [open_files[fd].size < 0] where the offset was meant: a
    negative offset on a descriptor of a file of size [s >= 0] is not
    rejected; the cursor becomes the negative offset, which is also the
    value returned, and [osErrno] is left as it was. *)
Theorem File_Seek_negative_offset_accepted
    (st : fs_state) (fd offset : Z) (e : open_file_t) :
  table_ok st ->
  zget (open_files st) fd = Some e ->
  0 <= size e ->
  offset < 0 ->
  File_Seek fd offset st =
    Ret offset
      (mk_state (disk st)
         (zset (open_files st) fd (mk_open_file (inode e) (size e) offset))
         (osErrno st)).
Proof.
  intros Hok Hfd Hs Hneg.
  rewrite (File_Seek_spec st fd offset e Hok Hfd).
  destruct (size e <? offset) eqn:E1; [apply Z.ltb_lt in E1; lia|].
  destruct (size e <? 0) eqn:E2; [apply Z.ltb_lt in E2; lia|].
  reflexivity.
Qed.

End Descriptors.

Lemma File_Open_table_full_witness :
  File_Open (str "/no/such/file") vol_table_full
  = Ret (-1) (with_errno E_TOO_MANY_OPEN_FILES vol_table_full).
Proof.
  apply File_Open_table_full.
  - reflexivity.
  - reflexivity.
Defined.

Lemma File_Seek_negative_offset_accepted_witness :
  File_Seek 0 (-5) vol_opened
  = Ret (-5)
      (mk_state (disk vol_opened)
         (zset (open_files vol_opened) 0 (mk_open_file 1 0 (-5)))
         (osErrno vol_opened)).
Proof.
  apply (File_Seek_negative_offset_accepted vol_opened 0 (-5)
           (mk_open_file 1 0 0)).
  - vm_compute. reflexivity.
  - vm_compute. reflexivity.
  - simpl. lia.
  - lia.
Defined.

(** * Path resolution and [Dir_Size] *)

Section Paths.
Context {P : Params}.
Context (R : fs_state -> fs_state -> Prop) {HR : StateOrder R}.

Lemma preserves_find_child_groups fname offset cs cb :
  forall fuel nentries idx,
    preserves R (find_child_groups fuel fname offset cs cb nentries idx).
Proof.
  induction fuel as [|fuel IH]; intros nentries idx;
    cbn [find_child_groups]; pres.
Qed.

Lemma preserves_find_child_inode parent fname cs cb :
  preserves R (find_child_inode parent fname cs cb).
Proof.
  unfold find_child_inode. pres. apply preserves_find_child_groups.
Qed.

Lemma preserves_follow_tokens :
  forall toks parent child cs cb name,
    preserves R (follow_tokens toks parent child cs cb name).
Proof.
  induction toks as [|token rest IH]; intros; cbn [follow_tokens]; pres;
    try apply IH.
  apply preserves_find_child_inode.
Qed.

Lemma preserves_follow_path path : preserves R (follow_path path).
Proof.
  unfold follow_path. pres. apply preserves_follow_tokens.
Qed.

End Paths.

#[export] Hint Resolve preserves_find_child_inode preserves_follow_path
  : fs_pres.

Section DirSize.
Context {P : Params}.

(** [follow_path] only reads. *)
Lemma follow_path_value path st r :
  value_of (follow_path path) st = Some r ->
  follow_path path st = Ret r st.
Proof.
  unfold value_of. destruct (follow_path path st) as [a s'|f] eqn:E;
    [|discriminate].
  intros H. inversion H; subst.
  rewrite (preserves_follow_path eq path st r s' E). reflexivity.
Qed.

Lemma inode_offset_rem (ino : Z) :
  ino - (INODE_TABLE_START_SECTOR + Z.quot ino INODES_PER_SECTOR
         - INODE_TABLE_START_SECTOR) * INODES_PER_SECTOR
  = Z.rem ino INODES_PER_SECTOR.
Proof.
  replace (INODE_TABLE_START_SECTOR + Z.quot ino INODES_PER_SECTOR
           - INODE_TABLE_START_SECTOR)
    with (Z.quot ino INODES_PER_SECTOR) by lia.
  pose proof (Z.quot_rem' ino INODES_PER_SECTOR). lia.
Qed.

Lemma inode_offset_in_sector (ino : Z) :
  0 <= ino -> 0 < INODES_PER_SECTOR ->
  (0 <=? Z.rem ino INODES_PER_SECTOR)
  && (Z.rem ino INODES_PER_SECTOR <? INODES_PER_SECTOR) = true.
Proof.
  intros H0 H1. pose proof (Z.rem_bound_pos ino INODES_PER_SECTOR H0 H1).
  apply andb_true_iff. split; [apply Z.leb_le|apply Z.ltb_lt]; lia.
Qed.

(** C6, as amended.  On a path that resolves to a directory whose inode
    records [n] entries, [Dir_Size] returns [n * sizeof(dirent_t)], the
    size of the directory in bytes (20 bytes an entry), and changes
    nothing. *)
Theorem Dir_Size_is_entries_times_record_size
    (st : fs_state) (path : buffer) (parent child n : Z)
    (name : option buffer) :
  0 < INODES_PER_SECTOR ->
  value_of (follow_path path) st = Some (parent, Some child, name) ->
  0 <= child ->
  disk_inode_type st child = Some 1 ->
  disk_inode_size st child = Some n ->
  Dir_Size path st = Ret (to_int (n * sizeof_dirent_t)) st.
Proof.
  intros Hips Hpath Hchild Htype Hsize.
  unfold Dir_Size.
  eapply bind_step; [apply follow_path_value; exact Hpath|].
  cbn [read_local]. eapply bind_step; [reflexivity|].
  destruct (child >=? 0) eqn:E;
    [|rewrite Z.geb_leb in E; apply Z.leb_gt in E; lia].
  unfold disk_inode_type in Htype. unfold disk_inode_size in Hsize.
  destruct (zget (disk st)
              (INODE_TABLE_START_SECTOR + Z.quot child INODES_PER_SECTOR))
    as [buf|] eqn:Hsec; [|discriminate].
  cbv zeta.
  eapply bind_step; [apply Disk_Read_sector; exact Hsec|].
  cbn [Z.ltb Z.compare].
  rewrite inode_offset_rem.
  eapply bind_step;
    [unfold c_assert; rewrite (inode_offset_in_sector child Hchild Hips);
     reflexivity|].
  inversion Htype as [Ht]. inversion Hsize as [Hn].
  rewrite Ht. reflexivity.
Qed.

End DirSize.

Lemma Dir_Size_is_entries_times_record_size_witness :
  Dir_Size (str "/") vol_ab = Ret (to_int (2 * sizeof_dirent_t)) vol_ab.
Proof.
  apply (Dir_Size_is_entries_times_record_size vol_ab (str "/") 0 0 2 None).
  - reflexivity.
  - vm_compute. reflexivity.
  - lia.
  - vm_compute. reflexivity.
  - vm_compute. reflexivity.
Defined.

(** C6, the counterexample.  With the two live entries [a] and [b] in
    the root directory, which [Dir_Read] lists, [Dir_Size] returns 40
    and not 2. *)
Lemma Dir_Size_is_not_entry_count :
  value_of (Dir_Read (str "/") (zeros 40) 40) vol_ab
    = Some (2, dirent_record "a" 1 ++ dirent_record "b" 2)
  /\ value_of (Dir_Size (str "/")) vol_ab = Some 40
  /\ value_of (Dir_Size (str "/")) vol_ab <> Some 2.
Proof.
  split; [vm_compute; reflexivity|].
  split; [vm_compute; reflexivity|].
  vm_compute. discriminate.
Qed.

(** * [File_Write] *)

Section Returns.
Context {P : Params}.

Lemma returns_ret {A : Type} (Q : A -> Prop) (a : A) :
  Q a -> returns Q (ret a).
Proof. intros HQ s a' s' H. inversion H; subst. exact HQ. Qed.

Lemma returns_undef {A : Type} (Q : A -> Prop) : returns Q undef.
Proof. intros s a s' H. discriminate H. Qed.

Lemma returns_bind {A B : Type} (Q : B -> Prop) (m : M A) (k : A -> M B) :
  (forall a, returns Q (k a)) -> returns Q (bind m k).
Proof.
  intros Hk s b s2 H.
  apply bind_ret_inv in H. destruct H as (a & s1 & _ & H2).
  exact (Hk a s1 b s2 H2).
Qed.

Lemma returns_bind_post {A B : Type} (Q : B -> Prop) (Qa : A -> Prop)
    (m : M A) (k : A -> M B) :
  returns Qa m -> (forall a, Qa a -> returns Q (k a)) ->
  returns Q (bind m k).
Proof.
  intros Hm Hk s b s2 H.
  apply bind_ret_inv in H. destruct H as (a & s1 & H1 & H2).
  exact (Hk a (Hm s a s1 H1) s1 b s2 H2).
Qed.

Lemma returns_int_arith (z : Z) : returns (fun v => v = z) (int_arith z).
Proof.
  unfold int_arith. destruct (in_int z).
  - apply returns_ret. reflexivity.
  - apply returns_undef.
Qed.

Lemma returns_for_range {S X : Type} (Q : X -> Prop)
    (body : Z -> S -> M (ctl S X)) n lo s :
  (forall i s, lo <= i < lo + Z.of_nat n ->
     returns (fun c => match c with Return r => Q r | _ => True end)
             (body i s)) ->
  returns (fun c => match c with inr r => Q r | inl _ => True end)
          (for_range n lo body s).
Proof. intros Hb. apply for_range_returns. exact Hb. Qed.

End Returns.

(** One structural step on a goal [returns Q m]; a loop is entered with
    the property [Ql] of the values it hands to [return]. *)
Ltac rets_step Ql :=
  match goal with
  | |- returns _ (bind (for_range _ _ _ _) _) =>
      eapply returns_bind_post;
      [apply (returns_for_range Ql); intros ? ? ?
      |intros [?|?] ?]
  | |- returns _ (bind (int_arith _) _) =>
      eapply returns_bind_post; [apply returns_int_arith|intros ? ->]
  | |- returns _ (bind _ _) => apply returns_bind; intro
  | |- returns _ (ret _) => apply returns_ret; cbv beta iota; auto
  | |- returns _ undef => apply returns_undef
  | |- returns _ (if ?c then _ else _) => destruct c eqn:?
  | |- returns _ (match ?x with _ => _ end) => destruct x eqn:?
  | |- returns _ _ => progress cbv beta
  end.

Ltac rets Ql := repeat (rets_step Ql).

Section FileWrite.
Context {P : Params}.

Lemma quot_below (x d m : Z) :
  0 < d -> 0 <= m -> x < m * d -> Z.quot x d <= m.
Proof.
  intros Hd Hm Hx.
  destruct (Z_lt_le_dec x 0) as [Hneg|Hpos].
  - assert (Z.quot x d <= 0); [|lia].
    replace x with (- (- x)) by lia. rewrite Z.quot_opp_l by lia.
    assert (0 <= Z.quot (- x) d) by (apply Z.quot_pos; lia). lia.
  - assert (Z.quot x d < m); [|lia].
    apply Z.quot_lt_upper_bound; lia.
Qed.

(** The value of every [return] of [File_Write] is [-1] or the [size]
    argument. *)
Lemma File_Write_returns (fd : Z) (ub : buffer) (n : Z) :
  returns (fun r => r = -1 \/ r = n) (File_Write fd ub n).
Proof.
  unfold File_Write. cbv zeta. rets (fun v : Z => v = -1).
Qed.

(** C10.  Whenever [File_Write] returns without the error value [-1],
    what it returns is the [size] argument: the function ends in
    [return size], whatever the sector loop transferred. *)
Theorem File_Write_returns_size
    (st : fs_state) (fd : Z) (ub : buffer) (n r : Z) (st' : fs_state) :
  File_Write fd ub n st = Ret r st' ->
  r <> -1 ->
  r = n.
Proof.
  intros H Hr. destruct (File_Write_returns fd ub n st r st' H); tauto.
Qed.

End FileWrite.

Lemma run_of_value {A : Type} (m : M A) (st : fs_state) (a : A) :
  value_of m st = Some a -> m st = Ret a (state_after m st).
Proof.
  unfold value_of, state_after. destruct (m st); [|discriminate].
  intros H. inversion H; subst. reflexivity.
Qed.

Lemma File_Write_returns_size_witness :
  File_Write 0 [65] 1 vol_opened
    = Ret 1 (state_after (File_Write 0 [65] 1) vol_opened)
  /\ 1 = 1.
Proof.
  split.
  - apply run_of_value. vm_compute. reflexivity.
  - apply (File_Write_returns_size vol_opened 0 [65] 1 1
             (state_after (File_Write 0 [65] 1) vol_opened)).
    + apply run_of_value. vm_compute. reflexivity.
    + discriminate.
Defined.

(** The call of the witness asked for one byte and returned 1, while the
    sector loop moved the cursor, and with it the recorded size, by a
    whole sector. *)
Lemma File_Write_one_byte_moves_a_sector :
  value_of (File_Write 0 [65] 1) vol_opened = Some 1
  /\ zget (open_files vol_opened) 0 = Some (mk_open_file 1 0 0)
  /\ zget (open_files vol_written) 0 = Some (mk_open_file 1 512 512)
  /\ disk_inode_size vol_written 1 = Some 512.
Proof. repeat split; vm_compute; reflexivity. Qed.

Section FileWriteGuard.
Context {P : Params}.

Lemma errno_kept_claim_bit e i buf x b loc :
  e <> E_GENERAL -> preserves (errno_kept e) (claim_bit i buf x b loc).
Proof.
  intros He. unfold claim_bit. pres.
  apply errno_kept_set_errno. congruence.
Qed.

Lemma errno_kept_bitmap_first_unused e start num nbits :
  e <> E_GENERAL ->
  preserves (errno_kept e) (bitmap_first_unused start num nbits).
Proof.
  intros He. unfold bitmap_first_unused. cbv zeta. pres;
    try (apply errno_kept_claim_bit; exact He);
    apply errno_kept_set_errno; congruence.
Qed.

Lemma errno_kept_advance_pos e fd n :
  preserves (errno_kept e) (advance_pos fd n).
Proof. unfold advance_pos. pres. Qed.

(** The sector loop of [File_Write] stays below the index test
    [i > MAX_SECTORS_PER_FILE] once the guard on the cached size has let
    the call pass. *)
Lemma sectors_to_write_bound (s p n : Z) :
  0 < SECTOR_SIZE -> 0 <= MAX_SECTORS_PER_FILE ->
  0 <= s -> s + n <= MAX_FILE_SIZE ->
  Z.quot (n - (SECTOR_SIZE - Z.rem p SECTOR_SIZE)) SECTOR_SIZE
    <= MAX_SECTORS_PER_FILE.
Proof.
  intros Hss Hm Hs Hg. unfold MAX_FILE_SIZE in Hg.
  apply quot_below; try assumption.
  assert (Hnz : SECTOR_SIZE <> 0) by lia.
  pose proof (Z.rem_bound_abs p SECTOR_SIZE Hnz) as Hr.
  lia.
Qed.

(** C3, as amended.  The guard of [File_Write] compares the file size
    cached in the descriptor, not the cursor: a write of [n] bytes is
    rejected with [E_FILE_TOO_BIG] exactly when [size + n] exceeds
    [MAX_FILE_SIZE]; the rejected call changes neither the disk nor the
    open-file table, so the recorded size stays what it was. *)
Theorem File_Write_too_big_by_cached_size
    (st : fs_state) (fd : Z) (e : open_file_t) (ub : buffer) (n : Z) :
  0 < SECTOR_SIZE -> 0 <= MAX_SECTORS_PER_FILE ->
  table_ok st ->
  zget (open_files st) fd = Some e ->
  0 <= size e ->
  in_int (size e + n) = true ->
  (MAX_FILE_SIZE < size e + n ->
   File_Write fd ub n st = Ret (-1) (with_errno E_FILE_TOO_BIG st))
  /\ (size e + n <= MAX_FILE_SIZE ->
      forall r st', File_Write fd ub n st = Ret r st' ->
                    osErrno st' = E_FILE_TOO_BIG ->
                    osErrno st = E_FILE_TOO_BIG).
Proof.
  intros Hss Hm Hok Hfd Hs Hint.
  assert (Hopen : open_file_at fd st = Ret e st).
  { unfold open_file_at. rewrite Hfd. reflexivity. }
  split.
  - intros Hbig. unfold File_Write.
    eapply bind_step; [exact Hopen|].
    eapply bind_step; [eapply is_file_open_self; eassumption|].
    cbn [Z.eqb Pos.eqb negb].
    eapply bind_step; [unfold int_arith; rewrite Hint; reflexivity|].
    destruct (size e + n >? MAX_FILE_SIZE) eqn:E; [reflexivity|].
    rewrite Z.gtb_ltb in E. apply Z.ltb_ge in E. lia.
  - intros Hfit r st' Hrun. unfold File_Write in Hrun.
    apply bind_ret_inv in Hrun. destruct Hrun as (e1 & s1 & H1 & Hrun).
    rewrite Hopen in H1. inversion H1; subst e1 s1. clear H1.
    apply bind_ret_inv in Hrun. destruct Hrun as (o & s1 & H1 & Hrun).
    rewrite (is_file_open_self st fd e Hok Hfd) in H1.
    inversion H1; subst o s1. clear H1.
    cbn [Z.eqb Pos.eqb negb] in Hrun.
    apply bind_ret_inv in Hrun. destruct Hrun as (g & s1 & H1 & Hrun).
    unfold int_arith in H1. rewrite Hint in H1.
    inversion H1; subst g s1. clear H1.
    destruct (size e + n >? MAX_FILE_SIZE) eqn:E.
    { rewrite Z.gtb_ltb in E. apply Z.ltb_lt in E. lia. }
    revert Hrun. cbv zeta.
    match goal with
    | |- ?m st = Ret r st' -> _ =>
        assert (Hk : preserves (errno_kept E_FILE_TOO_BIG) m);
        [|intros Hrun; exact (Hk st r st' Hrun)]
    end.
    pose proof (sectors_to_write_bound (size e) (pos e) n Hss Hm Hs Hfit)
      as Hbound.
    pres;
      try (apply errno_kept_advance_pos);
      try (apply errno_kept_bitmap_first_unused; discriminate).
    all: exfalso;
      match goal with
      | Hgt : (?i >? MAX_SECTORS_PER_FILE) = true,
        Hi : _ <= ?i < _ |- _ =>
          rewrite Z.gtb_ltb in Hgt; apply Z.ltb_lt in Hgt;
          unfold trip in Hi; lia
      end.
Qed.

End FileWriteGuard.

Lemma File_Write_too_big_by_cached_size_witness :
  File_Write 0 (zeros 14849) 14849 vol_seek0
  = Ret (-1) (with_errno E_FILE_TOO_BIG vol_seek0).
Proof.
  assert (H1 : 0 < SECTOR_SIZE) by reflexivity.
  assert (H2 : 0 <= MAX_SECTORS_PER_FILE) by (vm_compute; discriminate).
  assert (H3 : table_ok vol_seek0) by (vm_compute; reflexivity).
  assert (H4 : zget (open_files vol_seek0) 0 = Some (mk_open_file 1 512 0))
    by (vm_compute; reflexivity).
  assert (H5 : 0 <= size (mk_open_file 1 512 0)) by (simpl; lia).
  assert (H6 : in_int (size (mk_open_file 1 512 0) + 14849) = true)
    by reflexivity.
  assert (H7 : MAX_FILE_SIZE < size (mk_open_file 1 512 0) + 14849)
    by reflexivity.
  exact (proj1 (File_Write_too_big_by_cached_size vol_seek0 0
                  (mk_open_file 1 512 0) (zeros 14849) 14849
                  H1 H2 H3 H4 H5 H6) H7).
Defined.

(** C3, the counterexample.  Descriptor 0 has its cursor at 0 in a file
    of recorded size 512.  A write of 14849 bytes would end at byte
    14849, below the capacity 30 * 512 = 15360, and is rejected with
    [E_FILE_TOO_BIG] all the same, because 512 + 14849 exceeds it. *)
Lemma File_Write_too_big_below_capacity :
  zget (open_files vol_seek0) 0 = Some (mk_open_file 1 512 0)
  /\ 0 + 14849 <= MAX_SECTORS_PER_FILE * SECTOR_SIZE
  /\ value_of (File_Write 0 (zeros 14849) 14849) vol_seek0
     = Some (-1)
  /\ osErrno (state_after (File_Write 0 (zeros 14849) 14849)
                          vol_seek0) = E_FILE_TOO_BIG
  /\ osErrno vol_seek0 <> E_FILE_TOO_BIG.
Proof.
  split; [vm_compute; reflexivity|].
  split; [vm_compute; discriminate|].
  split; [vm_compute; reflexivity|].
  split; [vm_compute; reflexivity|].
  vm_compute. discriminate.
Qed.

(** * The failing inputs *)

(** C1, at the failing input.  On a fresh volume, [/a.txt] is created
    and opened, the byte 65 is written, the file is closed and opened
    again, and one byte is read into a buffer that holds 0.  Every call
    succeeds and the read returns 1, but the caller's buffer still holds
    0, not 65: [File_Write] and [File_Read] copy inside their own sector
    buffer, and sector 256, the data sector of the file, holds only
    zeros. *)
Theorem File_Write_Read_roundtrip_loses_bytes :
  value_of (FS_Boot None) (power_on E_GENERAL) = Some 0
  /\ value_of (File_Create (str "/a.txt")) fresh_volume = Some 0
  /\ value_of (File_Open (str "/a.txt")) vol_created = Some 0
  /\ value_of (File_Write 0 [65] 1) vol_opened = Some 1
  /\ value_of (File_Close 0) vol_written = Some 0
  /\ value_of (File_Open (str "/a.txt")) vol_closed = Some 0
  /\ value_of (File_Read 0 [0] 1) vol_reopened = Some (1, [0])
  /\ disk_inode_data vol_reopened 1 0 = Some 256
  /\ match zget (disk vol_reopened) 256 with
     | Some sector => forallb (Z.eqb 0) sector
     | None => false
     end = true.
Proof. repeat split; vm_compute; reflexivity. Qed.

(** [File_Read] hands the caller's memory back as it received it, on
    every descriptor and every volume. *)
Lemma File_Read_keeps_user_buffer `{P : Params} (fd : Z) (ub : buffer) (n : Z) :
  returns (fun r => snd r = ub) (File_Read fd ub n).
Proof.
  unfold File_Read. cbv zeta. rets (fun v : Z => True).
Qed.

(** [File_Write] does the same whatever bytes the caller supplies. *)
Lemma File_Write_ignores_user_buffer `{P : Params}
    (fd : Z) (ub1 ub2 : buffer) (n : Z) (st : fs_state) :
  File_Write fd ub1 n st = File_Write fd ub2 n st.
Proof. reflexivity. Qed.

(** C4, at the failing input.  Descriptor 0 has its cursor at 0 in a
    file of recorded size 1024.  [File_Read] of 600 bytes returns 600,
    which is [min(600, 1024 - 0)], but the sector loop runs once and
    leaves the cursor at 512. *)
Theorem File_Read_cursor_behind_count :
  zget (open_files vol_rewound) 0 = Some (mk_open_file 1 1024 0)
  /\ disk_inode_size vol_rewound 1 = Some 1024
  /\ value_of (File_Read 0 (zeros 600) 600) vol_rewound
     = Some (600, zeros 600)
  /\ zget (open_files (state_after (File_Read 0 (zeros 600) 600)
                                   vol_rewound)) 0
     = Some (mk_open_file 1 1024 512).
Proof. repeat split; vm_compute; reflexivity. Qed.

(** C5, at the failing input.  On a fresh volume no file is open and
    slot 0 of the table is free.  [File_Read] and [File_Write] on
    descriptor 0 pass the descriptor test, load inode 0, the root
    directory, and fail with [E_GENERAL] because it is not a file;
    [osErrno] is not [E_BAD_FD]. *)
Theorem File_Read_Write_free_slot_not_bad_fd (e0 : FS_Error) :
  let st := with_errno e0 fresh_volume in
  zget (open_files st) 0 = Some (mk_open_file 0 0 0)
  /\ value_of (File_Read 0 [0] 1) st = Some (-1, [0])
  /\ osErrno (state_after (File_Read 0 [0] 1) st) = E_GENERAL
  /\ value_of (File_Write 0 [65] 1) st = Some (-1)
  /\ osErrno (state_after (File_Write 0 [65] 1) st) = E_GENERAL.
Proof. repeat split; vm_compute; reflexivity. Qed.

(** C7, at the failing input.  The root directory holds [a] (inode 1)
    and [b] (inode 2) in slots 0 and 1 of its sector, and its inode
    records 2 entries.  [remove_inode(0, 0, 1)], the call [File_Unlink]
    makes for [/a], succeeds: slot 0 receives the last entry and the
    recorded size drops to 1, but slot 1, the old last slot, still holds
    the entry of [b] instead of zeros. *)
Theorem remove_inode_leaves_last_slot :
  value_of (follow_path (str "/a")) vol_ab = Some (0, Some 1, Some (str "a"))
  /\ disk_dirent vol_ab DATABLOCK_START_SECTOR 0 = Some (dirent_record "a" 1)
  /\ disk_dirent vol_ab DATABLOCK_START_SECTOR 1 = Some (dirent_record "b" 2)
  /\ disk_inode_size vol_ab 0 = Some 2
  /\ value_of (remove_inode 0 0 1) vol_ab = Some 0
  /\ disk_inode_size vol_ab_minus_a 0 = Some 1
  /\ disk_dirent vol_ab_minus_a DATABLOCK_START_SECTOR 0
     = Some (dirent_record "b" 2)
  /\ disk_dirent vol_ab_minus_a DATABLOCK_START_SECTOR 1
     = Some (dirent_record "b" 2)
  /\ dirent_record "b" 2 <> zeros sizeof_dirent_t.
Proof.
  repeat split; try (vm_compute; reflexivity). vm_compute. discriminate.
Qed.

(** What the stale slot leads to.  With [a], [b], [c] created and [b],
    then [c] unlinked, the name [c] still resolves, so that [File_Open]
    opens the deleted file and a second [File_Unlink] of [/c] succeeds;
    after it the directory records no entry and [/a], which nobody
    removed, is not found any more. *)
Lemma stale_entry_still_resolves :
  value_of (File_Unlink (str "/b")) vol_abc = Some 0
  /\ value_of (File_Unlink (str "/c")) vol_abc_minus_b = Some 0
  /\ value_of (File_Open (str "/c")) vol_abc_minus_bc = Some 0
  /\ value_of (File_Unlink (str "/c")) vol_abc_minus_bc = Some 0
  /\ value_of (Dir_Size (str "/")) vol_abc_minus_bcc = Some 0
  /\ value_of (File_Open (str "/a")) vol_abc_minus_bcc = Some (-1)
  /\ osErrno (state_after (File_Open (str "/a")) vol_abc_minus_bcc)
     = E_NO_SUCH_FILE.
Proof. repeat split; vm_compute; reflexivity. Qed.

(** With 25 entries, a full directory sector, [remove_inode] computes
    the group of the last entry as [25 / 25 = 1] and its slot as [-1]:
    the removal reads before the start of its buffer. *)
Lemma remove_inode_full_sector_faults :
  value_of (Dir_Size (str "/")) vol_25_files = Some (25 * 20)
  /\ File_Unlink (str "/f03") vol_25_files = Fault UndefinedBehaviour.
Proof. split; vm_compute; reflexivity. Qed.

(** C8, at the failing input.  The root directory holds the 26 files
    [f00] ... [f25], with inodes 1 ... 26, and the caller passes a buffer
    of 26 records.  [Dir_Read] returns 26, but it stores each entry at
    its index inside its sector: the entry of [f25], first of the second
    sector, lands on record 0; the entry of [f00] is in no record, and
    record 25 is left as the caller passed it. *)
Theorem Dir_Read_overwrites_first_record :
  value_of (Dir_Size (str "/")) vol_26_files = Some (26 * 20)
  /\ match value_of (Dir_Read (str "/") (zeros (26 * 20)) (26 * 20))
                    vol_26_files with
     | Some (r, out) =>
         r = 26
         /\ slice out 0 20 = dirent_record "f25" 26
         /\ slice out (25 * 20) 20 = zeros 20
         /\ forallb (fun j => negb (buffer_eqb (slice out (Z.of_nat j * 20) 20)
                                               (dirent_record "f00" 1)))
                    (seq 0 26) = true
     | None => False
     end.
Proof.
  split; [vm_compute; reflexivity|].
  vm_compute. repeat split.
Qed.

(** * The descriptor test and the count of [File_Read], in general *)

Section DescriptorTest.
Context {P : Params}.

(** Whatever slot of the table [fd] names, used or free, [File_Write]
    does not report [E_BAD_FD]. *)
Lemma File_Write_never_bad_fd
    (st : fs_state) (fd : Z) (e : open_file_t) (ub : buffer) (n : Z) :
  table_ok st ->
  zget (open_files st) fd = Some e ->
  forall r st', File_Write fd ub n st = Ret r st' ->
                osErrno st' = E_BAD_FD -> osErrno st = E_BAD_FD.
Proof.
  intros Hok Hfd r st' Hrun.
  assert (Hopen : open_file_at fd st = Ret e st).
  { unfold open_file_at. rewrite Hfd. reflexivity. }
  unfold File_Write in Hrun.
  apply bind_ret_inv in Hrun. destruct Hrun as (e1 & s1 & H1 & Hrun).
  rewrite Hopen in H1. inversion H1; subst e1 s1. clear H1.
  apply bind_ret_inv in Hrun. destruct Hrun as (o & s1 & H1 & Hrun).
  rewrite (is_file_open_self st fd e Hok Hfd) in H1.
  inversion H1; subst o s1. clear H1.
  cbn [Z.eqb Pos.eqb negb] in Hrun.
  revert Hrun. cbv zeta.
  match goal with
  | |- ?m st = Ret r st' -> _ =>
      assert (Hk : preserves (errno_kept E_BAD_FD) m);
      [|intros Hrun; exact (Hk st r st' Hrun)]
  end.
  pres;
    try (apply errno_kept_advance_pos);
    try (apply errno_kept_bitmap_first_unused; discriminate).
Qed.

(** The same for [File_Read]. *)
Lemma File_Read_never_bad_fd
    (st : fs_state) (fd : Z) (e : open_file_t) (ub : buffer) (n : Z) :
  table_ok st ->
  zget (open_files st) fd = Some e ->
  forall r st', File_Read fd ub n st = Ret r st' ->
                osErrno st' = E_BAD_FD -> osErrno st = E_BAD_FD.
Proof.
  intros Hok Hfd r st' Hrun.
  assert (Hopen : open_file_at fd st = Ret e st).
  { unfold open_file_at. rewrite Hfd. reflexivity. }
  unfold File_Read in Hrun.
  apply bind_ret_inv in Hrun. destruct Hrun as (e1 & s1 & H1 & Hrun).
  rewrite Hopen in H1. inversion H1; subst e1 s1. clear H1.
  apply bind_ret_inv in Hrun. destruct Hrun as (o & s1 & H1 & Hrun).
  rewrite (is_file_open_self st fd e Hok Hfd) in H1.
  inversion H1; subst o s1. clear H1.
  cbn [Z.eqb Pos.eqb negb] in Hrun.
  revert Hrun. cbv zeta.
  match goal with
  | |- ?m st = Ret r st' -> _ =>
      assert (Hk : preserves (errno_kept E_BAD_FD) m);
      [|intros Hrun; exact (Hk st r st' Hrun)]
  end.
  pres; apply errno_kept_advance_pos.
Qed.

(** The value [File_Read] returns on a descriptor with cursor [p] in a
    file of cached size [s]: the error value, 0 at end of file, or the
    clamped count [min(n, s - p)].  The count is computed before the
    sector loop and does not depend on what the loop did to the
    cursor. *)
Lemma File_Read_count
    (st : fs_state) (fd : Z) (e : open_file_t) (ub : buffer) (n : Z) :
  zget (open_files st) fd = Some e ->
  forall r st', File_Read fd ub n st = Ret r st' ->
    fst r = -1
    \/ (size e <= pos e /\ fst r = 0)
    \/ (pos e < size e /\ fst r = Z.min n (size e - pos e)).
Proof.
  intros Hfd r st' Hrun.
  assert (Hopen : open_file_at fd st = Ret e st).
  { unfold open_file_at. rewrite Hfd. reflexivity. }
  unfold File_Read in Hrun.
  apply bind_ret_inv in Hrun. destruct Hrun as (e1 & s1 & H1 & Hrun).
  rewrite Hopen in H1. inversion H1; subst e1 s1. clear H1.
  revert Hrun. cbv zeta.
  match goal with
  | |- ?m st = Ret r st' -> ?G =>
      assert (Hk : returns (fun r => fst r = -1
                              \/ (size e <= pos e /\ fst r = 0)
                              \/ (pos e < size e
                                  /\ fst r = Z.min n (size e - pos e))) m);
      [|intros Hrun; exact (Hk st r st' Hrun)]
  end.
  rets (fun v : Z => v = -1).
  all: cbn [fst]; subst.
  all: repeat match goal with
         | H : (_ <=? _) = true |- _ => apply Z.leb_le in H
         | H : (_ <=? _) = false |- _ => apply Z.leb_gt in H
         | |- context [if ?a >? ?b then _ else _] =>
             let E := fresh "E" in
             destruct (a >? b) eqn:E;
             rewrite Z.gtb_ltb in E;
             [apply Z.ltb_lt in E|apply Z.ltb_ge in E]
         end.
  all: lia.
Qed.

End DescriptorTest.

(** * The cursor of [File_Read], in general *)

Section ReadCursor.
Context {P : Params}.

(** A loop invariant on the locals and the state, with what holds when
    the body executes [return]. *)
Lemma for_range_invariant {S X : Type}
    (I : S -> fs_state -> Prop) (Q : fs_state -> Prop)
    (body : Z -> S -> M (ctl S X)) :
  forall n lo,
    (forall i s st c st',
        lo <= i < lo + Z.of_nat n -> I s st -> body i s st = Ret c st' ->
        match c with
        | Continue s' | Break s' => I s' st'
        | Return _ => Q st'
        end) ->
    forall s st r st',
      I s st -> for_range n lo body s st = Ret r st' ->
      match r with
      | inl s' => I s' st'
      | inr _ => Q st'
      end.
Proof.
  induction n as [|n IH]; intros lo Hb s st r st' HI H.
  - simpl in H. inversion H; subst. exact HI.
  - cbn [for_range] in H.
    apply bind_ret_inv in H. destruct H as (c & s1 & H1 & H2).
    pose proof (Hb lo s st c s1 ltac:(lia) HI H1) as Hc.
    destruct c as [s2|s2|x].
    + eapply (IH (lo + 1)); [|exact Hc|exact H2].
      intros i s3 st3 c3 st3' Hi. apply Hb. lia.
    + inversion H2; subst. exact Hc.
    + inversion H2; subst. exact Hc.
Qed.

Lemma zget_zset_same {A : Type} (l : list A) (i : Z) (x y : A) :
  zget l i = Some x -> zget (zset l i y) i = Some y.
Proof.
  unfold zget, zset. destruct (i <? 0); [discriminate|].
  generalize (Z.to_nat i). clear i. intros k. revert l.
  induction k as [|k IH]; intros [|h t] H; try discriminate; simpl in *.
  - reflexivity.
  - apply IH. exact H.
Qed.

(** On a descriptor whose cursor [p >= 0] is not past the cached size
    [s], a read of [n >= 0] bytes never moves the cursor backwards nor
    past [p + min(n, s - p)], hence never past [s]; the inode and the
    cached size of the slot stay. *)
Lemma File_Read_cursor_bound
    (st : fs_state) (fd : Z) (e : open_file_t) (ub : buffer) (n : Z) :
  0 < SECTOR_SIZE ->
  table_ok st ->
  zget (open_files st) fd = Some e ->
  0 <= pos e <= size e ->
  0 <= n ->
  forall r st', File_Read fd ub n st = Ret r st' ->
    cursor_at fd e
      (fun p' => pos e <= p' <= pos e + Z.min n (size e - pos e)) st'.
Proof.
  intros Hss Hok Hfd Hpos Hn r st' Hrun.
  assert (Hopen : open_file_at fd st = Ret e st).
  { unfold open_file_at. rewrite Hfd. reflexivity. }
  assert (Hhere : cursor_at fd e
            (fun p' => pos e <= p' <= pos e + Z.min n (size e - pos e)) st).
  { exists (pos e). split; [destruct e; exact Hfd|lia]. }
  unfold File_Read in Hrun.
  apply bind_ret_inv in Hrun. destruct Hrun as (e1 & s1 & H1 & Hrun).
  rewrite Hopen in H1. inversion H1; subst e1 s1. clear H1.
  apply bind_ret_inv in Hrun. destruct Hrun as (o & s1 & H1 & Hrun).
  rewrite (is_file_open_self st fd e Hok Hfd) in H1.
  inversion H1; subst o s1. clear H1.
  cbn [Z.eqb Pos.eqb negb] in Hrun.
  apply bind_ret_inv in Hrun. destruct Hrun as (eor & s1 & H1 & Hrun).
  pose proof (returns_int_arith _ _ _ _ H1) as Heor. cbv beta in Heor.
  pose proof (preserves_int_arith eq _ _ _ _ H1) as Hs. cbv beta in Hs.
  subst eor s1. clear H1.
  cbv zeta in Hrun.
  apply bind_ret_inv in Hrun. destruct Hrun as ([rc ib] & s1 & H1 & Hrun).
  pose proof (preserves_Disk_Read eq _ _ _ _ _ H1) as Hs. cbv beta in Hs.
  subst s1. clear H1.
  destruct (rc <? 0).
  { inversion Hrun; subst. exact Hhere. }
  apply bind_ret_inv in Hrun. destruct Hrun as (u & s1 & H1 & Hrun).
  pose proof (preserves_c_assert eq _ _ _ _ H1) as Hs. cbv beta in Hs.
  subst s1. clear H1.
  match type of Hrun with
  | (if ?c then _ else _) _ = _ => destruct c
  end.
  { apply bind_ret_inv in Hrun. destruct Hrun as (u' & s1 & H1 & Hrun).
    inversion H1; subst. inversion Hrun; subst. exact Hhere. }
  destruct (size e <=? pos e) eqn:Heof.
  { inversion Hrun; subst. exact Hhere. }
  apply Z.leb_gt in Heof.
  apply bind_ret_inv in Hrun. destruct Hrun as (res & s1 & H1 & Hrun).
  set (stop := if pos e + n >? size e then size e else pos e + n) in *.
  assert (Hstop : stop = pos e + Z.min n (size e - pos e)).
  { unfold stop. destruct (pos e + n >? size e) eqn:E;
      rewrite Z.gtb_ltb in E;
      [apply Z.ltb_lt in E|apply Z.ltb_ge in E]; lia. }
  assert (Hfin : cursor_at fd e (fun p' => pos e <= p' <= stop) s1).
  { match type of H1 with
    | for_range ?k ?lo ?body ?s0 st = _ =>
        pose proof (for_range_invariant
          (fun (l : buffer * Z * Z * Z) s =>
             let '(_, _, btr, sb) := l in
             cursor_at fd e (fun p' => pos e <= p' /\ p' + btr = stop) s
             /\ 0 <= sb <= btr)
          (cursor_at fd e (fun p' => pos e <= p' <= stop))
          body k lo) as Hloop
    end.
    match type of Hloop with
    | ?A -> _ => assert (Hbody : A); [|specialize (Hloop Hbody)]
    end.
    { intros i [[[b bi] btr] sb] s0 c s0' Hi [(p0 & Hp0 & Hge & Hsum) Hsb]
             Hb.
      destruct (i >? MAX_SECTORS_PER_FILE).
      { apply bind_ret_inv in Hb. destruct Hb as (u' & s2 & Hb1 & Hb).
        inversion Hb1; subst. inversion Hb; subst.
        exists p0. split; [exact Hp0|lia]. }
      apply bind_ret_inv in Hb. destruct Hb as (d & s2 & Hb1 & Hb).
      pose proof (preserves_inode_data eq _ _ _ _ _ _ Hb1) as Hs.
      cbv beta in Hs. subst s2. clear Hb1.
      apply bind_ret_inv in Hb. destruct Hb as ([rc' b'] & s2 & Hb1 & Hb).
      pose proof (preserves_Disk_Read eq _ _ _ _ _ Hb1) as Hs.
      cbv beta in Hs. subst s2. clear Hb1.
      destruct (rc' =? 0).
      - apply bind_ret_inv in Hb. destruct Hb as (b2 & s2 & Hb1 & Hb).
        pose proof (preserves_memcpy_within eq _ _ _ _ _ _ _ Hb1) as Hs.
        cbv beta in Hs. subst s2. clear Hb1.
        apply bind_ret_inv in Hb. destruct Hb as (u' & s2 & Hb1 & Hb).
        unfold advance_pos in Hb1.
        apply bind_ret_inv in Hb1. destruct Hb1 as (e2 & s3 & Hb2 & Hb1).
        unfold open_file_at in Hb2. rewrite Hp0 in Hb2.
        inversion Hb2; subst e2 s3. clear Hb2.
        inversion Hb1; subst s2. clear Hb1.
        inversion Hb; subst. clear Hb.
        split.
        + exists (p0 + sb). split.
          * cbn [open_files inode size pos].
            eapply zget_zset_same. exact Hp0.
          * lia.
        + destruct (btr - sb <? SECTOR_SIZE) eqn:E;
            [apply Z.ltb_lt in E|apply Z.ltb_ge in E]; lia.
      - apply bind_ret_inv in Hb. destruct Hb as (u' & s2 & Hb1 & Hb).
        inversion Hb1; subst. inversion Hb; subst.
        exists p0. split; [exact Hp0|lia]. }
    match type of H1 with
    | for_range _ _ _ ?s0 st = _ =>
        specialize (Hloop s0 st res s1)
    end.
    match type of Hloop with
    | ?A -> _ => assert (Hinit : A); [|specialize (Hloop Hinit H1)]
    end.
    { split.
      - exists (pos e). split; [destruct e; exact Hfd|]. fold stop. lia.
      - fold stop.
        assert (0 <= Z.rem (pos e) SECTOR_SIZE < SECTOR_SIZE)
          by (apply Z.rem_bound_pos; lia).
        destruct (stop - pos e <? SECTOR_SIZE) eqn:E;
          [apply Z.ltb_lt in E|apply Z.ltb_ge in E]; lia. }
    destruct res as [[[[b bi] btr] sb]|v].
    - destruct Hloop as [(p0 & Hp0 & Hge & Hsum) Hsb].
      exists p0. split; [exact Hp0|lia].
    - exact Hloop. }
  assert (st' = s1) by (destruct res; inversion Hrun; reflexivity).
  subst st'. rewrite <- Hstop. exact Hfin.
Qed.

End ReadCursor.
